(** * ubxlocationdate: position fixes from .ubz receiver logs

    A shallow embedding of [ubxlocationdate.py] and the properties of its
    record loop, its per-directory aggregation and its region report.

    Layout of the development:
    - [Py]: the Python values the script touches and the built-ins it
      calls on them ([float], [int], [//], [/], [datetime]);
    - the record loop of [collect_info_from_file];
    - files as the reader shows them, directories, and [main];
    - the inputs of the examples, then the properties. *)

From Stdlib Require Import ZArith Floats Lia Bool List.
From stdpp Require Import gmap strings.

Set Warnings "-inexact-float".
Local Open Scope Z_scope.

(** ** Python values and built-ins *)

Module Py.

(** What an attribute of a parsed message can hold.  A [bool] behaves as
    the [int] 0 or 1 under every operation used here and is not kept
    apart.  Python's numeric-literal parser is not modelled: a [str]
    carries, next to its text, what [float(s)] and [int(s)] return on it
    ([None] when they raise); any other object is known only by these two
    outcomes. *)
Inductive value :=
| VNone
| VInt (z : Z)
| VFloat (f : float)
| VStr (s : string) (as_float : option float) (as_int : option Z)
| VObj (as_float : option float) (as_int : option Z).

Definition is_none (v : value) : bool :=
  match v with VNone => true | _ => false end.

(** [v == s] for a string literal [s]. *)
Definition eq_str (v : value) (s : string) : bool :=
  match v with
  | VStr t _ _ => bool_decide (t = s)
  | _ => false
  end.

(** [float(n)] on an [int]: the nearest binary64 value, ties to even;
    OverflowError ([None]) when that is not finite. *)
Definition float_of_int (n : Z) : option float :=
  match SpecFloat.binary_normalize 53 1024 n 0 false with
  | SpecFloat.S754_infinity _ | SpecFloat.S754_nan => None
  | x => Some (SF2Prim x)
  end.

(** [int(x)] on a [float]: truncation toward zero; ValueError on a NaN
    and OverflowError on an infinity. *)
Definition int_of_float (x : float) : option Z :=
  match Prim2SF x with
  | SpecFloat.S754_zero _ => Some 0
  | SpecFloat.S754_finite s m e =>
      let a := if 0 <=? e then Z.pos m * 2 ^ e else Z.shiftr (Z.pos m) (- e) in
      Some (if s then - a else a)
  | SpecFloat.S754_infinity _ | SpecFloat.S754_nan => None
  end.

(** [float(v)]; [None] stands for any raised exception. *)
Definition py_float (v : value) : option float :=
  match v with
  | VNone => None
  | VInt n => float_of_int n
  | VFloat x => Some x
  | VStr _ cf _ => cf
  | VObj cf _ => cf
  end.

(** [int(v)]. *)
Definition py_int (v : value) : option Z :=
  match v with
  | VNone => None
  | VInt n => Some n
  | VFloat x => int_of_float x
  | VStr _ _ ci => ci
  | VObj _ ci => ci
  end.

(** [n // d] on ints, for a positive [d]: the quotient rounded toward
    minus infinity. *)
Definition floordiv (n d : Z) : Z := n / d.

(** [n / d] with an [int] on the left and a [float] on the right: the
    int is converted first (and that may overflow), then divided. *)
Definition truediv (n : Z) (d : float) : option float :=
  match float_of_int n with
  | Some x => Some (PrimFloat.div x d)
  | None => None
  end.

(** [datetime.datetime] objects. *)
Record datetime := Datetime {
  dt_year : Z; dt_month : Z; dt_day : Z;
  dt_hour : Z; dt_minute : Z; dt_second : Z;
  dt_microsecond : Z
}.

Definition is_leap (y : Z) : bool :=
  (y mod 4 =? 0) && (negb (y mod 100 =? 0) || (y mod 400 =? 0)).

Definition days_in_month (y m : Z) : Z :=
  match m with
  | 1 | 3 | 5 | 7 | 8 | 10 | 12 => 31
  | 4 | 6 | 9 | 11 => 30
  | 2 => if is_leap y then 29 else 28
  | _ => 0
  end.

Definition between (lo x hi : Z) : bool := (lo <=? x) && (x <=? hi).

(** The calendar part of the constructor's range check. *)
Definition valid_calendar (y mo d h mi s : Z) : bool :=
  between 1 y 9999 && between 1 mo 12 && between 1 d (days_in_month y mo)
  && between 0 h 23 && between 0 mi 59 && between 0 s 59.

(** [datetime(y, mo, d, h, mi, s, us)]; [None] is the ValueError (or
    OverflowError) of an argument out of range. *)
Definition datetime_new (y mo d h mi s us : Z) : option datetime :=
  if valid_calendar y mo d h mi s && between 0 us 999999
  then Some (Datetime y mo d h mi s us)
  else None.

End Py.

Import Py.

(** ** The script *)

(** A parsed message: its attributes by name. *)
Abbreviation parsed := (gmap string value).

(** [getattr(parsed, name, None)]. *)
Definition getattr (p : parsed) (name : string) : value :=
  default VNone (p !! name).

(** One element of [records]. *)
Definition sample : Type := datetime * float * float.

(** The nine attributes read off a NAV-PVT message (lines 23-31). *)
Record fixrec := FixRecord {
  lat : value; lon : value;
  year : value; month : value; day : value;
  hour : value; minute : value; second : value;
  nano : value
}.

(** Lines 22-31: the branch is entered on the identity alone. *)
Definition fix_record (p : parsed) : option fixrec :=
  if eq_str (getattr p "identity") "NAV-PVT" then
    Some {| lat := getattr p "lat"; lon := getattr p "lon";
            year := getattr p "year"; month := getattr p "month";
            day := getattr p "day"; hour := getattr p "hour";
            minute := getattr p "min"; second := getattr p "second";
            nano := getattr p "nano" |}
  else None.

(** Line 33: [None in (lat, lon, year, month, day, hour, minute, second)]. *)
Definition missing_fields (r : fixrec) : bool :=
  existsb is_none
    [lat r; lon r; year r; month r; day r; hour r; minute r; second r].

(** Lines 37-50, one coordinate: [float(v)], and only when that raises
    [int(v) / 1e7]; [None] is the [continue] of the inner handler. *)
Definition coord_deg (v : value) : option float :=
  match py_float v with
  | Some x => Some x
  | None =>
      match py_int v with
      | Some n => truediv n 1e7%float
      | None => None
      end
  end.

(** Whether line 41 (or 48) is reached for [v]. *)
Definition fallback_reached (v : value) : bool :=
  match py_float v with Some _ => false | None => true end.

(** Lines 60-66. *)
Definition usec_of (nano : value) : Z :=
  if is_none nano then 0
  else match py_int nano with
       | Some n => floordiv n 1000
       | None => 0
       end.

(** Lines 53-70: [None] is the [continue] of the handler. *)
Definition build_datetime (r : fixrec) : option datetime :=
  year_i ← py_int (year r);
  month_i ← py_int (month r);
  day_i ← py_int (day r);
  hour_i ← py_int (hour r);
  min_i ← py_int (minute r);
  sec_i ← py_int (second r);
  datetime_new year_i month_i day_i hour_i min_i sec_i (usec_of (nano r)).

(** Lines 33-72 for one NAV-PVT message: the tuple appended to [records],
    or [None] when one of the [continue]s is taken. *)
Definition normalize (r : fixrec) : option sample :=
  if missing_fields r then None
  else
    lat_deg ← coord_deg (lat r);
    lon_deg ← coord_deg (lon r);
    dt ← build_datetime r;
    Some (dt, lat_deg, lon_deg).

(** The state the loop works on: [records], and the lines printed so far. *)
Record state := State {
  records : list sample;
  stdout : list string
}.

(** The body of the [for] loop (lines 21-72) on one message.  No branch
    prints. *)
Definition loop_body (st : state) (p : parsed) : state :=
  match fix_record p with
  | Some r =>
      match normalize r with
      | Some rec => State (records st ++ [rec]) (stdout st)
      | None => st
      end
  | None => st
  end.

(** Lines 17 and 20-73: the state after the loop over the reader's
    messages, entered with [st]. *)
Definition run_loop (st : state) (msgs : list parsed) : state :=
  fold_left loop_body msgs st.

(** [records] as returned at line 73. *)
Definition collect_records (msgs : list parsed) : list sample :=
  records (run_loop (State [] []) msgs).

(** What one message contributes. *)
Definition message_sample (p : parsed) : option sample :=
  fix_record p ≫= normalize.

(** ** Files and directories *)

(** How the reading of a .ubz file ends.  The script never looks at the
    archive itself: it iterates over the reader, which reads the
    decompressed stream and yields parsed messages.  gzip raises EOFError
    where a truncated archive is cut, and another exception (BadGzipFile,
    zlib.error) on an input that is no archive or is damaged; [eof] tells
    the two apart.  The reader may itself raise while parsing a frame. *)
Inductive ending :=
| EndOfStream
| GzipError (eof : bool) (e : string)
| ReaderError (e : string).

(** A .ubz file as lines 18-20 meet it: the messages the reader yields on
    it, and how the reading ends. *)
Record ubz := Ubz {
  yielded : list parsed;
  ending_of : ending
}.

(** The exception that leaves the iteration of line 20, [None] when the
    iteration ends normally.  The reader takes an EOFError for the end of
    the stream and stops; any other exception passes through it. *)
Definition raised (f : ubz) : option string :=
  match ending_of f with
  | EndOfStream => None
  | GzipError true _ => None
  | GzipError false e => Some e
  | ReaderError e => Some e
  end.

(** One path matched by [src_dir.glob("*.ubz")]. *)
Record entry := Entry {
  path : string;
  name : string;
  content : ubz
}.

(** Lines 18-20: the messages the loop is run on, or the exception that
    leaves the iteration (the records gathered until then are lost with
    it). *)
Definition read_messages (f : ubz) : string + list parsed :=
  match raised f with
  | Some e => inl e
  | None => inr (yielded f)
  end.

(** [collect_info_from_file]: the returned list, or [inl e] when the
    exception [e] leaves the function, with the lines printed during the
    call. *)
Definition collect_info_from_file (f : ubz) : (string + list sample) * list string :=
  match read_messages f with
  | inl e => (inl e, [])
  | inr msgs =>
      let st := run_loop (State [] []) msgs in
      (inr (records st), stdout st)
  end.

Definition warning (x : entry) (e : string) : string :=
  "Warning: failed to process " +:+ path x +:+ ": " +:+ e.

(** Lines 86-91 for one path: the dict and the lines printed so far,
    before and after. *)
Definition dir_step (st : gmap string (list sample) * list string) (x : entry)
  : gmap string (list sample) * list string :=
  match collect_info_from_file (content x) with
  | (inr recs, out) => (<[name x := recs]> st.1, st.2 ++ out)
  | (inl e, out) => (<[name x := []]> st.1, st.2 ++ out ++ [warning x e])
  end.

(** The loop of lines 85-91 over the sorted paths. *)
Definition scan_dir (paths : list entry) : gmap string (list sample) * list string :=
  fold_left dir_step paths (∅, []).

(** [collect_info_from_dir]: [listing] is [None] when [src_dir] is not an
    existing directory, else its .ubz entries in sorted order.  The result
    is the dict with the lines printed on the way, or the exception of
    line 83. *)
Definition collect_info_from_dir (src_dir : string) (listing : option (list entry))
  : string + gmap string (list sample) * list string :=
  match listing with
  | None => inl ("Source directory not found: " +:+ src_dir)
  | Some paths => inr (scan_dir paths)
  end.

(** In closed form, what one path adds to the dict and to the output. *)
Definition file_records (x : entry) : list sample :=
  match raised (content x) with
  | Some _ => []
  | None => collect_records (yielded (content x))
  end.

Definition file_output (x : entry) : list string :=
  match raised (content x) with
  | Some e => [warning x e]
  | None => []
  end.

(** ** The reader's coordinates *)


(** ** The region report of [main] *)

Definition fgt (x y : float) : bool := PrimFloat.ltb y x.
Definition flt (x y : float) : bool := PrimFloat.ltb x y.

(** Lines 119-134 for the first record of a file: the lines printed by the
    chain, and the value of [location] when line 141 reports it. *)
Definition main_region (lat lon : float) : list string * string :=
  let location := "unknown" in
  let printed :=
    if fgt lat 59.83333 && flt lat 68.90596 && fgt lon 21.37596 && flt lon 30.93276
    then ["Finland"]
    else if fgt lat 45.83203 && flt lat 47.69732 && fgt lon 6.07544 && flt lon 9.83723
    then ["Switzerland"]
    else if fgt lat 18.24306 && flt lat 52.33333 && fgt lon 75.98951 && flt lon 134.28917
    then ["China"]
    else if fgt lat 24.34478 && flt lat 45.40944 && fgt lon 124.15717 && flt lon 145.575
    then ["Japan"]
    else if fgt lat 1.28967 && flt lat 1.32808 && fgt lon 103.804641 && flt lon 103.84
    then ["Singapore"]
    else if fgt lat 19.50139 && flt lat 64.85694 && fgt lon (-161.75583) && flt lon (-68.01197)
    then ["United States"]
    else [] in
  (printed, location).

(** The classifier as the specification words it: an ordered table of
    boxes, the first containing box wins, ["unknown"] when none does. *)
Record rule := Rule {
  region : string;
  min_lat : float; max_lat : float;
  min_lon : float; max_lon : float
}.

Definition rules : list rule :=
  [ Rule "Finland" 59.83333 68.90596 21.37596 30.93276;
    Rule "Switzerland" 45.83203 47.69732 6.07544 9.83723;
    Rule "China" 18.24306 52.33333 75.98951 134.28917;
    Rule "Japan" 24.34478 45.40944 124.15717 145.575;
    Rule "Singapore" 1.28967 1.32808 103.804641 103.84;
    Rule "United States" 19.50139 64.85694 (-161.75583) (-68.01197) ].

Definition contains (r : rule) (lat lon : float) : bool :=
  flt (min_lat r) lat && flt lat (max_lat r)
  && flt (min_lon r) lon && flt lon (max_lon r).

Fixpoint first_match (rs : list rule) (lat lon : float) : option string :=
  match rs with
  | [] => None
  | r :: rs' => if contains r lat lon then Some (region r) else first_match rs' lat lon
  end.

Definition classify_table (lat lon : float) : string :=
  default "unknown" (first_match rules lat lon).

(** ** The dict in insertion order, and [main] *)

(** [d[k] = v] on a Python dict, kept as its items in insertion order: an
    existing key keeps its place and takes the new value, a new key goes
    last. *)
Fixpoint dict_set (k : string) (v : list sample) (d : list (string * list sample))
  : list (string * list sample) :=
  match d with
  | [] => [(k, v)]
  | (k', v') :: d' =>
      if decide (k' = k) then (k, v) :: d' else (k', v') :: dict_set k v d'
  end.

(** The ten attribute names the loop reads (lines 22-31). *)
Definition fix_attributes : list string :=
  ["identity"; "lat"; "lon"; "year"; "month"; "day"; "hour"; "min"; "second";
   "nano"].

(** The warning a path causes, if an exception leaves the reading of its
    file. *)
Definition file_warning (x : entry) : option string :=
  match raised (content x) with
  | Some e => Some (warning x e)
  | None => None
  end.

(** Line 101 of [main]: the default directory, a raw string. *)
Definition default_dir : string := "C:\Users\amina\workspace\ubxlogs\SG".

Section Main.

(** [str(x)] on a float and on a datetime; the formatting itself is not
    modelled. *)
Variable str_float : float → string.
Variable str_datetime : datetime → string.

(** [str(Path(s))]: the path [s] in the normal form of [pathlib] (a
    trailing separator and "." components are dropped, for one); the
    normalisation itself is not modelled. *)
Variable path_str : string → string.

(** Lines 86-91 for one path, on the dict with its order. *)
Definition dir_step_items (st : list (string * list sample) * list string) (x : entry)
  : list (string * list sample) * list string :=
  match collect_info_from_file (content x) with
  | (inr recs, out) => (dict_set (name x) recs st.1, st.2 ++ out)
  | (inl e, out) => (dict_set (name x) [] st.1, st.2 ++ out ++ [warning x e])
  end.

(** The loop of lines 85-91: [results.items()] and the lines printed. *)
Definition scan_dir_items (paths : list entry)
  : list (string * list sample) * list string :=
  fold_left dir_step_items paths ([], []).

(** [collect_info_from_dir] with the dict in its order. *)
Definition collect_info_from_dir_items (src_dir : string) (listing : option (list entry))
  : string + list (string * list sample) * list string :=
  match listing with
  | None => inl ("Source directory not found: " +:+ src_dir)
  | Some paths => inr (scan_dir_items paths)
  end.

(** Line 141: the summary of a file. *)
Definition summary_line (fname location : string) : string :=
  fname +:+ " location: " +:+ location +:+ " start time: "
  +:+ str_datetime (Datetime 2025 9 12 0 53 40 299)
  +:+ " duration: " +:+ str_float 0.0 +:+ " minutes".

(** Lines 114-141 for one item of the dict: the lines printed, or [None]
    for the IndexError of [records[0]] at line 114. *)
Definition report_file (fname : string) (recs : list sample) : option (list string) :=
  match recs with
  | [] => None
  | (dt, lat, lon) :: _ =>
      Some (["datetime: " +:+ str_datetime dt;
             "latitude: " +:+ str_float lat;
             "longitude: " +:+ str_float lon]
            ++ (main_region lat lon).1
            ++ [summary_line fname (main_region lat lon).2])
  end.

(** What [main] prints for the file of a path. *)
Definition path_report (x : entry) : option (list string) :=
  report_file (name x) (file_records x).

(** The loop of lines 111-142: the lines printed, and whether the
    IndexError ended it. *)
Fixpoint report_items (items : list (string * list sample)) : list string * bool :=
  match items with
  | [] => ([], false)
  | (fname, recs) :: rest =>
      match report_file fname recs with
      | None => ([], true)
      | Some ls => let r := report_items rest in (ls ++ r.1, r.2)
      end
  end.

(** Lines 101-102: the directory [main] works on, as a [Path]; an absent
    or empty argument selects the default. *)
Definition source_dir (args_src : option string) : string :=
  match args_src with
  | Some s => if bool_decide (s = "") then path_str default_dir else path_str s
  | None => path_str default_dir
  end.

(** [main] from line 101 on.  [args_src] is [args.src]; [fs] gives, for a
    path as [Path] prints it, the sorted .ubz entries of the directory
    there, [None] when there is no such directory.  The result is the lines printed and the exception that ends
    the run, if one does. *)
Definition main (args_src : option string) (fs : string → option (list entry))
  : list string * option string :=
  let src_dir := source_dir args_src in
  match collect_info_from_dir_items src_dir (fs src_dir) with
  | inl e => (["Error: " +:+ e], None)
  | inr res =>
      let rep := report_items res.1 in
      (res.2 ++ rep.1,
       if rep.2 then Some "IndexError: list index out of range" else None)
  end.

End Main.

(** ** Inputs used in the examples *)

Definition str (s : string) : value := VStr s None None.

(** A NAV-PVT message as the reader yields it for a fix taken at
    2025-09-12 00:53:40.000299 in Singapore. *)
Definition nav_pvt : parsed :=
  list_to_map
    [("identity", str "NAV-PVT");
     ("lat", VFloat 1.30); ("lon", VFloat 103.82);
     ("year", VInt 2025); ("month", VInt 9); ("day", VInt 12);
     ("hour", VInt 0); ("min", VInt 53); ("second", VInt 40);
     ("nano", VInt 299000)].

Definition nav_pvt_fix : fixrec :=
  FixRecord (VFloat 1.30) (VFloat 103.82) (VInt 2025) (VInt 9) (VInt 12)
            (VInt 0) (VInt 53) (VInt 40) (VInt 299000).

Definition nav_pvt_sample : sample :=
  (Datetime 2025 9 12 0 53 40 299, 1.30%float, 103.82%float).

Definition nav_sat : parsed := {[ "identity" := str "NAV-SAT" ]}.

(** The messages: a fix without latitude, and one with month 13. *)
Definition nav_pvt_no_lat : parsed := delete "lat" nav_pvt.
Definition nav_pvt_month13 : parsed := <["month" := VInt 13]> nav_pvt.

(** A fix message with the given nanosecond field. *)
Definition nav_pvt_nano (v : value) : parsed := <["nano" := v]> nav_pvt.

(** Two files of a directory: one that is not a gzip archive, one on
    which the reader yields no message. *)
Definition bad_ubz : entry :=
  Entry "logs/a.ubz" "a.ubz" (Ubz [] (GzipError false "Not a gzipped file")).
Definition empty_ubz : entry := Entry "logs/b.ubz" "b.ubz" (Ubz [] EndOfStream).

(** An archive cut short after its first fix: gzip raises EOFError at the
    cut, after the reader has yielded the one message. *)
Definition truncated_ubz : entry :=
  Entry "logs/c.ubz" "c.ubz"
        (Ubz [nav_pvt]
             (GzipError true
                "Compressed file ended before the end-of-stream marker was reached")).

(** A directory listing for the examples: the default directory holds the
    file that is no archive and the file without messages; no other path
    exists.
    The paths of the examples are in normal form, where [str(Path(s))] is
    [s]. *)
Definition demo_fs (p : string) : option (list entry) :=
  if bool_decide (p = default_dir) then Some [bad_ubz; empty_ubz] else None.

(** ** Predicates of the statements *)

(** The identity of the message is the string NAV-PVT. *)
Definition is_nav_pvt (p : parsed) : Prop :=
  ∃ cf ci, getattr p "identity" = VStr "NAV-PVT" cf ci.

(** A float, or an int a coordinate field can hold: one of magnitude
    below 2^53, which takes in every signed 32-bit value. *)
Definition coordinate_numeric (v : value) : Prop :=
  match v with
  | VFloat _ => True
  | VInt n => Z.abs n < 2 ^ 53
  | _ => False
  end.

(** The record with its nanosecond field replaced. *)
Definition with_nano (v : value) (r : fixrec) : fixrec :=
  FixRecord (lat r) (lon r) (year r) (month r) (day r)
            (hour r) (minute r) (second r) v.

(** * Properties *)

(** ** The record loop *)

Lemma loop_body_sample (st : state) (p : parsed) :
  loop_body st p =
  match message_sample p with
  | Some rec => State (records st ++ [rec]) (stdout st)
  | None => st
  end.
Proof.
  unfold loop_body, message_sample.
  destruct (fix_record p) as [r|]; simpl; [|done].
  by destruct (normalize r).
Qed.

Lemma run_loop_spec (msgs : list parsed) (st : state) :
  run_loop st msgs = State (records st ++ omap message_sample msgs) (stdout st).
Proof.
  unfold run_loop. revert st.
  induction msgs as [|p msgs IH]; intros st; simpl.
  - rewrite app_nil_r. by destruct st.
  - rewrite IH, loop_body_sample.
    destruct (message_sample p) as [rec|]; simpl; [|done].
    by rewrite <- app_assoc.
Qed.

Lemma collect_records_omap (msgs : list parsed) :
  collect_records msgs = omap message_sample msgs.
Proof. unfold collect_records. by rewrite run_loop_spec. Qed.

Lemma collect_records_app (pre post : list parsed) :
  collect_records (pre ++ post) = collect_records pre ++ collect_records post.
Proof. rewrite !collect_records_omap. apply omap_app. Qed.

(** A message that contributes nothing can be dropped from the stream:
    the messages around it are processed as without it. *)
Lemma collect_records_skip (p : parsed) (pre post : list parsed) :
  message_sample p = None →
  collect_records (pre ++ p :: post) = collect_records pre ++ collect_records post.
Proof.
  intros Hp. rewrite !collect_records_omap, omap_app. simpl. by rewrite Hp.
Qed.

Lemma loop_body_skip (p : parsed) (st : state) :
  message_sample p = None → loop_body st p = st.
Proof. intros Hp. by rewrite loop_body_sample, Hp. Qed.

(** The loop never prints. *)
Lemma run_loop_stdout (msgs : list parsed) (st : state) :
  stdout (run_loop st msgs) = stdout st.
Proof. by rewrite run_loop_spec. Qed.

Example nav_pvt_fix_record : fix_record nav_pvt = Some nav_pvt_fix.
Proof. reflexivity. Qed.

Example nav_pvt_message_sample : message_sample nav_pvt = Some nav_pvt_sample.
Proof. vm_compute. reflexivity. Qed.

(** ** Only NAV-PVT messages are looked at *)

Lemma eq_str_true (v : value) (s : string) :
  eq_str v s = true ↔ ∃ cf ci, v = VStr s cf ci.
Proof.
  destruct v; simpl; try (split; [done | by intros (? & ? & ?)]).
  rewrite bool_decide_eq_true. split.
  - intros ->. eauto.
  - intros (? & ? & [= -> _ _]). done.
Qed.

Lemma fix_record_is_Some (p : parsed) : is_Some (fix_record p) ↔ is_nav_pvt p.
Proof.
  unfold is_nav_pvt. rewrite <- eq_str_true. unfold fix_record.
  destruct (eq_str _ _); split; intros H; done || by destruct H.
Qed.

Lemma fix_record_None (p : parsed) : ¬ is_nav_pvt p → message_sample p = None.
Proof.
  rewrite <- fix_record_is_Some, <- eq_None_not_Some. unfold message_sample.
  by intros ->.
Qed.

(** C8.  A message enters the fix branch (its nine fields are read off) if
    and only if its identity is NAV-PVT.  A message of any other identity
    leaves the loop state as it was (nothing appended, nothing printed, no
    exception: the body is a total function), and the stream is processed
    as if the message were not in it. *)
Theorem fix_record_iff_nav_pvt (p : parsed) :
  (is_Some (fix_record p) ↔ is_nav_pvt p)
  ∧ (¬ is_nav_pvt p →
     message_sample p = None
     ∧ (∀ st, loop_body st p = st)
     ∧ (∀ pre post,
          collect_records (pre ++ p :: post)
          = collect_records pre ++ collect_records post)).
Proof.
  split; [apply fix_record_is_Some|].
  intros Hp%fix_record_None. split_and!; [done| |].
  - intros st. by apply loop_body_skip.
  - intros pre post. by apply collect_records_skip.
Qed.

Lemma nav_sat_not_nav_pvt : ¬ is_nav_pvt nav_sat.
Proof. intros (cf & ci & H). vm_compute in H. discriminate H. Defined.

Lemma fix_record_iff_nav_pvt_witness :
  ¬ is_nav_pvt nav_sat
  ∧ message_sample nav_sat = None
  ∧ collect_records ([nav_pvt] ++ nav_sat :: [nav_pvt])
    = collect_records [nav_pvt] ++ collect_records [nav_pvt].
Proof.
  split; [exact nav_sat_not_nav_pvt|].
  destruct (fix_record_iff_nav_pvt nav_sat) as [_ H].
  destruct (H nav_sat_not_nav_pvt) as (H1 & _ & H3).
  split; [exact H1 | exact (H3 [nav_pvt] [nav_pvt])].
Defined.

(** ** Records that are skipped *)

Lemma message_sample_fix (p : parsed) (r : fixrec) :
  fix_record p = Some r → message_sample p = normalize r.
Proof. unfold message_sample. by intros ->. Qed.

Lemma normalize_missing (r : fixrec) : missing_fields r = true → normalize r = None.
Proof. unfold normalize. by intros ->. Qed.

Lemma normalize_no_datetime (r : fixrec) : build_datetime r = None → normalize r = None.
Proof.
  intros H. unfold normalize. rewrite H.
  destruct (missing_fields r); [done|].
  destruct (coord_deg (lat r)); [|done].
  by destruct (coord_deg (lon r)).
Qed.

Lemma datetime_new_Some (y mo d h mi s us : Z) (dt : datetime) :
  datetime_new y mo d h mi s us = Some dt →
  valid_calendar y mo d h mi s = true ∧ 0 ≤ us ≤ 999999
  ∧ dt = Datetime y mo d h mi s us.
Proof.
  unfold datetime_new, between.
  destruct (valid_calendar y mo d h mi s); simpl; [|done].
  destruct (0 <=? us) eqn:H0; simpl; [|done].
  destruct (us <=? 999999) eqn:H1; simpl; [|done].
  intros [= <-]. split_and!; [done|lia|lia|done].
Qed.

Lemma datetime_new_invalid (y mo d h mi s us : Z) :
  valid_calendar y mo d h mi s = false → datetime_new y mo d h mi s us = None.
Proof. unfold datetime_new. by intros ->. Qed.

Lemma datetime_new_negative (y mo d h mi s us : Z) :
  us < 0 → datetime_new y mo d h mi s us = None.
Proof.
  intros H. unfold datetime_new, between.
  destruct (0 <=? us) eqn:H0; [lia|].
  by rewrite andb_false_r.
Qed.

(** C4, as stated, fails: a NAV-PVT message whose [lat] is absent is
    dropped at line 34 by a bare [continue]; no line is printed, so no
    warning is emitted for it. *)
Lemma missing_fields_warning_counterexample :
  (∃ r, fix_record nav_pvt_no_lat = Some r ∧ lat r = VNone
        ∧ missing_fields r = true)
  ∧ ¬ (∃ w, w ∈ stdout (run_loop (State [] []) [nav_pvt; nav_pvt_no_lat; nav_pvt])).
Proof.
  split.
  - eexists. split; [reflexivity|]. split; reflexivity.
  - rewrite run_loop_stdout. simpl. intros [w Hw]. by apply elem_of_nil in Hw.
Qed.

(** C4, amended.  For every NAV-PVT message in which one of lat, lon,
    year, month, day, hour, min, second is absent ([None]), no record is
    appended, nothing is printed (the record is dropped silently), and the
    messages before and after it are processed as without it. *)
Theorem missing_fields_skipped_silently (p : parsed) (r : fixrec) :
  fix_record p = Some r →
  missing_fields r = true →
  message_sample p = None
  ∧ (∀ st, loop_body st p = st)
  ∧ (∀ st pre post, stdout (run_loop st (pre ++ p :: post)) = stdout st)
  ∧ (∀ pre post,
       collect_records (pre ++ p :: post)
       = collect_records pre ++ collect_records post).
Proof.
  intros Hr Hm.
  assert (message_sample p = None) as Hp.
  { rewrite (message_sample_fix p r Hr). by apply normalize_missing. }
  split_and!; [done| | |].
  - intros st. by apply loop_body_skip.
  - intros st pre post. apply run_loop_stdout.
  - intros pre post. by apply collect_records_skip.
Qed.

Lemma missing_fields_skipped_silently_witness :
  message_sample nav_pvt_no_lat = None
  ∧ collect_records ([nav_pvt] ++ nav_pvt_no_lat :: [nav_pvt])
    = [nav_pvt_sample; nav_pvt_sample].
Proof.
  destruct (missing_fields_skipped_silently nav_pvt_no_lat
              (FixRecord VNone (VFloat 103.82) (VInt 2025) (VInt 9) (VInt 12)
                         (VInt 0) (VInt 53) (VInt 40) (VInt 299000))
              eq_refl eq_refl) as (H1 & _ & _ & H4).
  split; [exact H1|].
  rewrite (H4 [nav_pvt] [nav_pvt]). vm_compute. reflexivity.
Defined.

(** C6.  A NAV-PVT message whose calendar fields, as [int]s, are not a
    valid date and time of day yields no sample: the constructor's
    exception is caught at line 68 and the record dropped, nothing is
    corrected or clamped.  The samples of the messages before and after
    it are all in the result, in stream order. *)
Theorem invalid_calendar_skipped (p : parsed) (r : fixrec) (y mo d h mi s : Z) :
  fix_record p = Some r →
  py_int (year r) = Some y → py_int (month r) = Some mo →
  py_int (day r) = Some d → py_int (hour r) = Some h →
  py_int (minute r) = Some mi → py_int (second r) = Some s →
  valid_calendar y mo d h mi s = false →
  message_sample p = None
  ∧ (∀ pre post,
       collect_records (pre ++ p :: post)
       = omap message_sample pre ++ omap message_sample post).
Proof.
  intros Hr Hy Hmo Hd Hh Hmi Hs Hv.
  assert (message_sample p = None) as Hp.
  { rewrite (message_sample_fix p r Hr). apply normalize_no_datetime.
    unfold build_datetime. rewrite Hy, Hmo, Hd, Hh, Hmi, Hs. simpl.
    by apply datetime_new_invalid. }
  split; [done|].
  intros pre post. rewrite (collect_records_skip p pre post Hp).
  by rewrite !collect_records_omap.
Qed.

Lemma invalid_calendar_skipped_witness :
  valid_calendar 2025 13 12 0 53 40 = false
  ∧ message_sample nav_pvt_month13 = None
  ∧ collect_records ([nav_pvt] ++ nav_pvt_month13 :: [nav_pvt])
    = [nav_pvt_sample; nav_pvt_sample].
Proof.
  split; [reflexivity|].
  destruct (invalid_calendar_skipped nav_pvt_month13
              (FixRecord (VFloat 1.30) (VFloat 103.82) (VInt 2025) (VInt 13)
                         (VInt 12) (VInt 0) (VInt 53) (VInt 40) (VInt 299000))
              2025 13 12 0 53 40
              eq_refl eq_refl eq_refl eq_refl eq_refl eq_refl eq_refl eq_refl)
    as [H1 H2].
  split; [exact H1|].
  rewrite (H2 [nav_pvt] [nav_pvt]). vm_compute. reflexivity.
Defined.

Example day_32_invalid : valid_calendar 2025 9 32 0 53 40 = false.
Proof. reflexivity. Qed.

Example hour_25_invalid : valid_calendar 2025 9 12 25 53 40 = false.
Proof. reflexivity. Qed.

Example feb_29_2025_invalid : valid_calendar 2025 2 29 0 0 0 = false.
Proof. reflexivity. Qed.

Example feb_29_2024_valid : valid_calendar 2024 2 29 0 0 0 = true.
Proof. reflexivity. Qed.

(** ** The sub-second component *)

Lemma floordiv_negative (n : Z) : floordiv n 1000 < 0 ↔ n < 0.
Proof. unfold floordiv. split; intros H; Z.to_euclidean_division_equations; lia. Qed.

Lemma floordiv_quot (n : Z) : 0 ≤ n → floordiv n 1000 = Z.quot n 1000.
Proof. intros H. unfold floordiv. symmetry. apply Z.quot_div_nonneg; lia. Qed.

Lemma floordiv_nonneg (n : Z) : 0 ≤ floordiv n 1000 → 0 ≤ n.
Proof. intros H. destruct (Z.lt_ge_cases n 0) as [Hn%floordiv_negative|]; lia. Qed.

Lemma usec_of_int (v : value) (n : Z) :
  py_int v = Some n → usec_of v = floordiv n 1000.
Proof. unfold usec_of. intros H. rewrite H. by destruct v. Qed.

Lemma usec_of_unparsable (v : value) : py_int v = None → usec_of v = 0.
Proof. unfold usec_of. intros ->. by destruct (is_none v). Qed.

(** C10.  A NAV-PVT record whose nano is an int [n] with [n // 1000 < 0]
    (that is, any negative [n], since [//] rounds down) gets a negative
    microsecond argument; the constructor raises, the handler at line 68
    drops the record, whatever the calendar fields are, and the rest of
    the stream is processed as without it. *)
Theorem negative_nano_skipped (p : parsed) (r : fixrec) (n : Z) :
  fix_record p = Some r →
  nano r = VInt n →
  floordiv n 1000 < 0 →
  build_datetime r = None
  ∧ message_sample p = None
  ∧ (∀ pre post,
       collect_records (pre ++ p :: post)
       = collect_records pre ++ collect_records post).
Proof.
  intros Hr Hn Hneg.
  assert (build_datetime r = None) as Hdt.
  { unfold build_datetime. rewrite Hn.
    destruct (py_int (year r)); simpl; [|done].
    destruct (py_int (month r)); simpl; [|done].
    destruct (py_int (day r)); simpl; [|done].
    destruct (py_int (hour r)); simpl; [|done].
    destruct (py_int (minute r)); simpl; [|done].
    destruct (py_int (second r)); simpl; [|done].
    by apply datetime_new_negative. }
  assert (message_sample p = None) as Hp.
  { rewrite (message_sample_fix p r Hr). by apply normalize_no_datetime. }
  split_and!; [done|done|].
  intros pre post. by apply collect_records_skip.
Qed.

Lemma negative_nano_skipped_witness :
  floordiv (-1500) 1000 < 0
  ∧ valid_calendar 2025 9 12 0 53 40 = true
  ∧ message_sample (nav_pvt_nano (VInt (-1500))) = None.
Proof.
  assert (floordiv (-1500) 1000 < 0) as H by (vm_compute; reflexivity).
  split; [exact H|]. split; [reflexivity|].
  exact (proj1 (proj2 (negative_nano_skipped (nav_pvt_nano (VInt (-1500)))
    (FixRecord (VFloat 1.30) (VFloat 103.82) (VInt 2025) (VInt 9) (VInt 12)
               (VInt 0) (VInt 53) (VInt 40) (VInt (-1500)))
    (-1500) eq_refl eq_refl H))).
Defined.

Example nano_minus_one_skipped : message_sample (nav_pvt_nano (VInt (-1))) = None.
Proof. vm_compute. reflexivity. Qed.

Lemma normalize_with_nano (r : fixrec) (v : value) :
  usec_of v = usec_of (nano r) → normalize (with_nano v r) = normalize r.
Proof.
  intros H. unfold normalize, build_datetime, missing_fields. simpl. by rewrite H.
Qed.

Lemma normalize_Some (r : fixrec) (dt : datetime) (la lo : float) :
  normalize r = Some (dt, la, lo) →
  dt_microsecond dt = usec_of (nano r) ∧ 0 ≤ usec_of (nano r) ≤ 999999.
Proof.
  unfold normalize, build_datetime.
  destruct (missing_fields r); [done|].
  destruct (coord_deg (lat r)); simpl; [|done].
  destruct (coord_deg (lon r)); simpl; [|done].
  destruct (py_int (year r)); simpl; [|done].
  destruct (py_int (month r)); simpl; [|done].
  destruct (py_int (day r)); simpl; [|done].
  destruct (py_int (hour r)); simpl; [|done].
  destruct (py_int (minute r)); simpl; [|done].
  destruct (py_int (second r)); simpl; [|done].
  destruct (datetime_new _ _ _ _ _ _ _) as [dt'|] eqn:Hdt; simpl; [|done].
  intros [= -> _ _]. apply datetime_new_Some in Hdt as (_ & Hus & ->). done.
Qed.

(** When nothing is missing, both coordinates convert and the calendar
    fields are valid, a sample is produced exactly when the microsecond
    value is in range. *)
Lemma normalize_valid (r : fixrec) (la lo : float) (y mo d h mi s : Z) :
  missing_fields r = false →
  coord_deg (lat r) = Some la → coord_deg (lon r) = Some lo →
  py_int (year r) = Some y → py_int (month r) = Some mo →
  py_int (day r) = Some d → py_int (hour r) = Some h →
  py_int (minute r) = Some mi → py_int (second r) = Some s →
  valid_calendar y mo d h mi s = true →
  0 ≤ usec_of (nano r) ≤ 999999 →
  normalize r = Some (Datetime y mo d h mi s (usec_of (nano r)), la, lo).
Proof.
  intros Hm Hla Hlo Hy Hmo Hd Hh Hmi Hs Hv Hus.
  unfold normalize, build_datetime.
  rewrite Hm, Hla, Hlo, Hy, Hmo, Hd, Hh, Hmi, Hs. simpl.
  unfold datetime_new, between. rewrite Hv.
  destruct (0 <=? usec_of (nano r)) eqn:H0; [|lia].
  destruct (usec_of (nano r) <=? 999999) eqn:H1; [|lia].
  done.
Qed.

(** C5, as stated, fails: for nano = -500 the script computes
    [-500 // 1000 = -1], not the truncated quotient 0, and the record is
    dropped; with nano = 0, the value truncation gives, the same record
    yields a sample. *)
Lemma truncating_usec_counterexample :
  usec_of (VInt (-500)) = -1
  ∧ Z.quot (-500) 1000 = 0
  ∧ message_sample (nav_pvt_nano (VInt (-500))) = None
  ∧ message_sample (nav_pvt_nano (VInt 0))
    = Some (Datetime 2025 9 12 0 53 40 0, 1.30%float, 103.82%float).
Proof. split_and!; vm_compute; reflexivity. Qed.

(** C5, amended.  The microsecond argument is [int(nano) // 1000], the
    quotient rounded toward minus infinity; it is the truncated quotient
    whenever nano is not negative.  A sample is produced only when that
    value lies in 0..999999, so the microsecond of every sample produced
    is the truncated quotient, and a record with a negative nano yields
    no sample.  When nano is absent or [int(nano)] raises,
    the value is 0 and the record is normalized exactly as with nano = 0:
    with valid calendar fields and convertible coordinates it yields the
    sample with microsecond 0. *)
Theorem usec_floor_division (r : fixrec) :
  (∀ n, py_int (nano r) = Some n →
     usec_of (nano r) = floordiv n 1000
     ∧ (0 ≤ n → usec_of (nano r) = Z.quot n 1000))
  ∧ (∀ dt la lo n, normalize r = Some (dt, la, lo) →
     py_int (nano r) = Some n →
     0 ≤ dt_microsecond dt ≤ 999999 ∧ dt_microsecond dt = Z.quot n 1000)
  ∧ (∀ n, py_int (nano r) = Some n → n < 0 → normalize r = None)
  ∧ (nano r = VNone ∨ py_int (nano r) = None →
     usec_of (nano r) = 0
     ∧ normalize r = normalize (with_nano (VInt 0) r)
     ∧ ∀ la lo y mo d h mi s,
         missing_fields r = false →
         coord_deg (lat r) = Some la → coord_deg (lon r) = Some lo →
         py_int (year r) = Some y → py_int (month r) = Some mo →
         py_int (day r) = Some d → py_int (hour r) = Some h →
         py_int (minute r) = Some mi → py_int (second r) = Some s →
         valid_calendar y mo d h mi s = true →
         normalize r = Some (Datetime y mo d h mi s 0, la, lo)).
Proof.
  split_and!.
  - intros n Hn. rewrite (usec_of_int _ _ Hn). split; [done|].
    apply floordiv_quot.
  - intros dt la lo n Hs Hn.
    apply normalize_Some in Hs as [-> Hus].
    rewrite (usec_of_int _ _ Hn) in *. split; [done|].
    apply floordiv_quot, floordiv_nonneg. lia.
  - intros n Hn Hneg.
    destruct (normalize r) as [[[dt la] lo]|] eqn:Hs; [|done].
    apply normalize_Some in Hs as [_ Hus].
    rewrite (usec_of_int _ _ Hn) in Hus.
    apply floordiv_negative in Hneg. lia.
  - intros Hnano.
    assert (py_int (nano r) = None) as Hn.
    { destruct Hnano as [-> | H]; done. }
    pose proof (usec_of_unparsable _ Hn) as Hus.
    split_and!; [done| |].
    + symmetry. apply normalize_with_nano. by rewrite Hus.
    + intros la lo y mo d h mi s Hm Hla Hlo Hy Hmo Hd Hh Hmi Hs Hv.
      rewrite <- Hus.
      apply normalize_valid; try done. rewrite Hus. lia.
Qed.

Lemma usec_floor_division_witness :
  usec_of (VInt 299999) = Z.quot 299999 1000
  ∧ message_sample (nav_pvt_nano VNone)
    = Some (Datetime 2025 9 12 0 53 40 0, 1.30%float, 103.82%float).
Proof.
  pose (r := FixRecord (VFloat 1.30) (VFloat 103.82) (VInt 2025) (VInt 9)
                       (VInt 12) (VInt 0) (VInt 53) (VInt 40)).
  split.
  - destruct (usec_floor_division (r (VInt 299999))) as (H & _ & _ & _).
    apply (H 299999 eq_refl). lia.
  - destruct (usec_floor_division (r VNone)) as (_ & _ & _ & H).
    destruct (H (or_introl eq_refl)) as (_ & _ & H3).
    exact (H3 1.30%float 103.82%float 2025 9 12 0 53 40
              eq_refl eq_refl eq_refl eq_refl eq_refl eq_refl eq_refl
              eq_refl eq_refl eq_refl).
Defined.

Example nano_unparsable_is_zero :
  message_sample (nav_pvt_nano (VStr "n/a" None None))
  = Some (Datetime 2025 9 12 0 53 40 0, 1.30%float, 103.82%float).
Proof. vm_compute. reflexivity. Qed.

Example nano_nan_is_zero :
  message_sample (nav_pvt_nano (VFloat nan))
  = Some (Datetime 2025 9 12 0 53 40 0, 1.30%float, 103.82%float).
Proof. vm_compute. reflexivity. Qed.

(** ** Ints that a float holds exactly *)

Module FloatFacts.
Import SpecFloat.

Lemma digits2_pos_iter_xO (p : positive) (k : positive) :
  Z.pos (digits2_pos (Pos.iter xO p k)) = Z.pos (digits2_pos p) + Z.pos k.
Proof.
  revert p. induction k using Pos.peano_ind; intros p.
  - simpl. lia.
  - rewrite Pos.iter_succ. cbn [digits2_pos]. rewrite !Pos2Z.inj_succ, IHk. lia.
Qed.

Lemma iter_xO_value (p k : positive) :
  Z.pos (Pos.iter xO p k) = Z.pos p * 2 ^ Z.pos k.
Proof.
  revert p. induction k using Pos.peano_ind; intros p.
  - simpl. lia.
  - rewrite Pos.iter_succ, Pos2Z.inj_succ, Z.pow_succ_r by lia.
    rewrite Pos2Z.inj_xO, IHk. lia.
Qed.

Lemma digits2_pos_bound (p : positive) (k : Z) :
  0 ≤ k → Z.pos p < 2 ^ k → Z.pos (digits2_pos p) ≤ k.
Proof.
  revert k. induction p as [p IH|p IH|]; intros k Hk Hp; simpl.
  - assert (k ≠ 0) by (intros ->; simpl in Hp; lia).
    assert (Z.pos p < 2 ^ (k - 1)).
    { replace k with (Z.succ (k - 1)) in Hp by lia. rewrite Z.pow_succ_r in Hp by lia. lia. }
    specialize (IH (k - 1)). lia.
  - assert (k ≠ 0) by (intros ->; simpl in Hp; lia).
    assert (Z.pos p < 2 ^ (k - 1)).
    { replace k with (Z.succ (k - 1)) in Hp by lia. rewrite Z.pow_succ_r in Hp by lia. lia. }
    specialize (IH (k - 1)). lia.
  - assert (k ≠ 0) by (intros ->; simpl in Hp; lia). lia.
Qed.

Lemma binary_round_aux_exact (s : bool) (m : positive) (e : Z) :
  Z.pos (digits2_pos m) = 53 → -1074 ≤ e ≤ 971 →
  binary_round_aux 53 1024 s (Z.pos m) e loc_Exact = S754_finite s m e.
Proof.
  intros Hd He.
  assert (fexp 53 1024 (53 + e) - e = 0) as Hf by (unfold fexp, emin; lia).
  unfold binary_round_aux, shr_fexp.
  cbn [Zdigits2 shr_record_of_loc]. rewrite Hd, Hf.
  cbn [shr shr_m loc_of_shr_record round_nearest_even Zdigits2 shr_record_of_loc].
  rewrite Hd, Hf. cbn [shr shr_m].
  destruct (e <=? 1024 - 53) eqn:Hle; [done|lia].
Qed.

Lemma binary_round_small (s : bool) (p : positive) :
  Z.pos p < 2 ^ 53 →
  ∃ m e, binary_round 53 1024 s p 0 = S754_finite s m e
         ∧ valid_binary 53 1024 (S754_finite s m e) = true
         ∧ -52 ≤ e ≤ 0 ∧ Z.pos m = Z.pos p * 2 ^ (- e).
Proof.
  intros Hp. pose proof (digits2_pos_bound p 53 ltac:(lia) Hp) as Hd.
  assert (∃ m e, shl_align p 0 (fexp 53 1024 (Z.pos (digits2_pos p) + 0)) = (m, e)
                 ∧ Z.pos (digits2_pos m) = 53 ∧ -52 ≤ e ≤ 0
                 ∧ Z.pos m = Z.pos p * 2 ^ (- e)) as (m & e & Hsh & Hm & He & Hv).
  { assert (fexp 53 1024 (Z.pos (digits2_pos p) + 0) = Z.pos (digits2_pos p) - 53) as ->
      by (unfold fexp, emin; lia).
    unfold shl_align.
    destruct (Z.pos (digits2_pos p) - 53 - 0) as [|q|q] eqn:Hq; [|lia|].
    - exists p, 0. split_and!; [done|lia|lia|lia|simpl; lia].
    - exists (Pos.iter xO p q), (Z.pos (digits2_pos p) - 53).
      split_and!; [done| |lia|lia|].
      + rewrite digits2_pos_iter_xO. lia.
      + rewrite iter_xO_value. f_equal. f_equal. lia. }
  exists m, e. unfold binary_round. rewrite Hsh.
  split_and!; [apply binary_round_aux_exact; [done|lia]| |lia|lia|done].
  unfold valid_binary, bounded, canonical_mantissa. rewrite Hm.
  apply andb_true_iff. split; [apply Z.eqb_eq; unfold fexp, emin; lia|lia].
Qed.

Lemma float_of_int_exact (n : Z) :
  Z.abs n < 2 ^ 53 → ∃ x, float_of_int n = Some x ∧ int_of_float x = Some n.
Proof.
  intros Hn. unfold float_of_int.
  destruct n as [|p|p]; simpl binary_normalize.
  - eexists. split; [reflexivity|]. vm_compute. reflexivity.
  - destruct (binary_round_small false p) as (m & e & -> & Hv & He & Hm); [lia|].
    eexists. split; [reflexivity|]. unfold int_of_float.
    rewrite (Prim2SF_SF2Prim _ Hv).
    destruct (0 <=? e) eqn:H0.
    + assert (e = 0) as -> by lia. f_equal. simpl in *. lia.
    + f_equal. rewrite Z.shiftr_div_pow2 by lia. rewrite Hm.
      rewrite Z.div_mul; [done|]. apply Z.pow_nonzero; lia.
  - destruct (binary_round_small true p) as (m & e & -> & Hv & He & Hm); [simpl in Hn; lia|].
    eexists. split; [reflexivity|]. unfold int_of_float.
    rewrite (Prim2SF_SF2Prim _ Hv).
    destruct (0 <=? e) eqn:H0.
    + assert (e = 0) as -> by lia. f_equal. simpl in *. lia.
    + f_equal. rewrite Z.shiftr_div_pow2 by lia. rewrite Hm.
      rewrite Z.div_mul; [lia|]. apply Z.pow_nonzero; lia.
Qed.

End FloatFacts.

(** ** Coordinates *)

Lemma coord_deg_int (n : Z) : coord_deg (VInt n) = float_of_int n.
Proof.
  unfold coord_deg, truediv. simpl.
  by destruct (float_of_int n).
Qed.

Lemma coord_deg_float (x : float) : coord_deg (VFloat x) = Some x.
Proof. reflexivity. Qed.

Lemma coord_deg_fallback (v : value) (n : Z) :
  py_float v = None → py_int v = Some n → coord_deg v = truediv n 1e7.
Proof. unfold coord_deg. by intros -> ->. Qed.




(** C9.  On every latitude or longitude value that is a float, or an int
    a coordinate field can hold (magnitude below 2^53, so every signed
    32-bit value), the [float()] of line 38 succeeds, the fallback of
    line 41 is not reached, and the two-path conversion returns exactly
    what plain [float()] returns. *)
Theorem coord_deg_is_float (v : value) :
  coordinate_numeric v →
  (∃ x, py_float v = Some x)
  ∧ fallback_reached v = false
  ∧ coord_deg v = py_float v.
Proof.
  destruct v as [|n|x| |]; try done; intros Hv.
  - simpl in Hv. destruct (FloatFacts.float_of_int_exact n Hv) as (x & Hx & _).
    split_and!.
    + by exists x.
    + unfold fallback_reached. simpl. by rewrite Hx.
    + apply coord_deg_int.
  - split_and!; [by exists x|done|done].
Qed.

Lemma coord_deg_is_float_witness :
  coordinate_numeric (VInt 1307800)
  ∧ fallback_reached (VInt 1307800) = false
  ∧ coord_deg (VInt 1307800) = py_float (VInt 1307800)
  ∧ coord_deg (VFloat 0.13078) = py_float (VFloat 0.13078).
Proof.
  assert (coordinate_numeric (VInt 1307800)) as H by (simpl; lia).
  split; [exact H|].
  split; [exact (proj1 (proj2 (coord_deg_is_float (VInt 1307800) H)))|].
  split; [exact (proj2 (proj2 (coord_deg_is_float (VInt 1307800) H)))|].
  exact (proj2 (proj2 (coord_deg_is_float (VFloat 0.13078) I))).
Defined.

(** ** Files of a directory *)

Lemma collect_info_from_file_raised (f : ubz) (e : string) :
  raised f = Some e → collect_info_from_file f = (inl e, []).
Proof. unfold collect_info_from_file, read_messages. by intros ->. Qed.

Lemma collect_info_from_file_ended (f : ubz) :
  raised f = None →
  collect_info_from_file f = (inr (collect_records (yielded f)), []).
Proof.
  unfold collect_info_from_file, read_messages, collect_records. intros ->.
  by rewrite run_loop_stdout.
Qed.

Lemma dir_step_spec (st : gmap string (list sample) * list string) (x : entry) :
  dir_step st x = (<[name x := file_records x]> st.1, st.2 ++ file_output x).
Proof.
  unfold dir_step, file_records, file_output.
  destruct (raised (content x)) as [e|] eqn:Hr.
  - by rewrite (collect_info_from_file_raised _ e Hr).
  - rewrite (collect_info_from_file_ended _ Hr). by rewrite !app_nil_r.
Qed.

Lemma fold_dir_step_output (paths : list entry)
    (st : gmap string (list sample) * list string) :
  (fold_left dir_step paths st).2 = st.2 ++ concat (file_output <$> paths).
Proof.
  revert st. induction paths as [|x paths IH]; intros st; simpl.
  - by rewrite app_nil_r.
  - rewrite IH, dir_step_spec. simpl. by rewrite <- app_assoc.
Qed.

Lemma fold_dir_step_agree (paths : list entry) (n : string)
    (st1 st2 : gmap string (list sample) * list string) :
  st1.1 !! n = st2.1 !! n →
  (fold_left dir_step paths st1).1 !! n
  = (fold_left dir_step paths st2).1 !! n.
Proof.
  revert st1 st2. induction paths as [|x paths IH]; intros st1 st2 H; simpl.
  - done.
  - apply IH. rewrite !dir_step_spec. simpl.
    destruct (decide (name x = n)) as [->|Hne].
    + by rewrite !lookup_insert_eq.
    + by rewrite !lookup_insert_ne.
Qed.

Lemma fold_dir_step_fresh (paths : list entry) (n : string)
    (st : gmap string (list sample) * list string) :
  n ∉ name <$> paths →
  (fold_left dir_step paths st).1 !! n = st.1 !! n.
Proof.
  revert st. induction paths as [|x paths IH]; intros st H; simpl.
  - done.
  - rewrite fmap_cons, not_elem_of_cons in H. destruct H as [Hne Hn].
    rewrite (IH _ Hn), dir_step_spec. simpl.
    by rewrite lookup_insert_ne.
Qed.

Lemma scan_dir_insert (pre post : list entry) (x : entry) :
  name x ∉ name <$> post →
  (scan_dir (pre ++ x :: post)).1 !! name x = Some (file_records x).
Proof.
  intros Hfresh. unfold scan_dir. rewrite fold_left_app. simpl.
  rewrite (fold_dir_step_fresh _ _ _ Hfresh), dir_step_spec. simpl.
  by rewrite lookup_insert_eq.
Qed.

Lemma scan_dir_others (pre post : list entry) (x : entry) (n : string) :
  n ≠ name x →
  (scan_dir (pre ++ x :: post)).1 !! n = (scan_dir (pre ++ post)).1 !! n.
Proof.
  intros Hn. unfold scan_dir. rewrite !fold_left_app. simpl.
  apply fold_dir_step_agree. rewrite dir_step_spec. simpl.
  by rewrite lookup_insert_ne.
Qed.

Lemma scan_dir_output_split (pre post : list entry) (x : entry) :
  (scan_dir (pre ++ x :: post)).2
  = (scan_dir pre).2 ++ file_output x ++ (scan_dir post).2
  ∧ (scan_dir (pre ++ post)).2 = (scan_dir pre).2 ++ (scan_dir post).2.
Proof.
  unfold scan_dir. rewrite !fold_dir_step_output. simpl.
  by rewrite !fmap_app, !concat_app, fmap_cons.
Qed.

(** C7, as stated, fails: the archive of [truncated_ubz] cannot be
    decompressed to its end, gzip raises EOFError at the cut, and the
    reader takes that for the end of the stream.  No exception leaves the
    iteration, so the file contributes the sample decoded before the cut
    and no warning is printed. *)
Lemma truncated_archive_counterexample :
  (∃ e, ending_of (content truncated_ubz) = GzipError true e)
  ∧ collect_info_from_file (content truncated_ubz) = (inr [nav_pvt_sample], [])
  ∧ (scan_dir [bad_ubz; truncated_ubz]).1 !! "c.ubz" = Some [nav_pvt_sample]
  ∧ (scan_dir [truncated_ubz]).2 = [].
Proof.
  split; [by eexists|]. split_and!; vm_compute; reflexivity.
Qed.

(** C7, amended.  When decompression fails with an exception other than
    EOFError (an input that is not a gzip archive, damaged data), the
    exception leaves the file function, the handler of line 89 stores the
    empty list under the file's name and prints one warning for it.  When
    it fails with the EOFError of a truncated archive, no exception
    leaves the iteration: the file contributes the records of the
    messages yielded before the cut and no warning.  Either way every
    other name of the dict holds what it holds when the file is not in the
    directory, and the output of the other files is unchanged. *)
Theorem raising_file_isolated (pre post : list entry) (x : entry) :
  (∀ e, ending_of (content x) = GzipError false e →
     (name x ∉ name <$> post → (scan_dir (pre ++ x :: post)).1 !! name x = Some [])
     ∧ (scan_dir (pre ++ x :: post)).2
       = (scan_dir pre).2 ++ [warning x e] ++ (scan_dir post).2)
  ∧ (∀ e, ending_of (content x) = GzipError true e →
     (name x ∉ name <$> post →
      (scan_dir (pre ++ x :: post)).1 !! name x
      = Some (collect_records (yielded (content x))))
     ∧ (scan_dir (pre ++ x :: post)).2 = (scan_dir pre).2 ++ (scan_dir post).2)
  ∧ (scan_dir (pre ++ post)).2 = (scan_dir pre).2 ++ (scan_dir post).2
  ∧ (∀ n, n ≠ name x →
     (scan_dir (pre ++ x :: post)).1 !! n = (scan_dir (pre ++ post)).1 !! n).
Proof.
  destruct (scan_dir_output_split pre post x) as [Hout Hout'].
  split_and!.
  - intros e He.
    assert (raised (content x) = Some e) as Hr by (unfold raised; by rewrite He).
    split.
    + intros Hfresh. rewrite (scan_dir_insert pre post x Hfresh).
      unfold file_records. by rewrite Hr.
    + rewrite Hout. unfold file_output. by rewrite Hr.
  - intros e He.
    assert (raised (content x) = None) as Hr by (unfold raised; by rewrite He).
    split.
    + intros Hfresh. rewrite (scan_dir_insert pre post x Hfresh).
      unfold file_records. by rewrite Hr.
    + rewrite Hout. unfold file_output. by rewrite Hr.
  - done.
  - intros n Hn. by apply scan_dir_others.
Qed.

Lemma raising_file_isolated_witness :
  (scan_dir ([] ++ bad_ubz :: [empty_ubz])).1 !! "a.ubz" = Some []
  ∧ (scan_dir ([] ++ bad_ubz :: [empty_ubz])).2
    = ["Warning: failed to process logs/a.ubz: Not a gzipped file"]
  ∧ (scan_dir ([] ++ bad_ubz :: [empty_ubz])).1 !! "b.ubz"
    = (scan_dir ([] ++ [empty_ubz])).1 !! "b.ubz"
  ∧ (scan_dir ([bad_ubz] ++ truncated_ubz :: [])).1 !! "c.ubz"
    = Some [nav_pvt_sample].
Proof.
  destruct (raising_file_isolated [] [empty_ubz] bad_ubz) as (H1 & _ & _ & H4).
  destruct (H1 "Not a gzipped file" eq_refl) as [H1a H1b].
  destruct (raising_file_isolated [bad_ubz] [] truncated_ubz) as (_ & H2 & _ & _).
  destruct (H2 _ eq_refl) as [H2a _].
  split_and!.
  - apply H1a. simpl. rewrite list_elem_of_singleton. discriminate.
  - rewrite H1b. reflexivity.
  - apply H4. discriminate.
  - refine (eq_trans (H2a _) _); [simpl; apply not_elem_of_nil|].
    vm_compute. reflexivity.
Defined.

(** A file on which the reader yields nothing gives no sample and prints
    nothing. *)
Example empty_stream : collect_info_from_file (Ubz [] EndOfStream) = (inr [], []).
Proof. reflexivity. Qed.

(** ** The region report *)

(** The chain of lines 123-134 tests the boxes of the table in the table's
    order, with strict comparisons, and prints the name of the first box
    that contains the point; it prints nothing when no box does. *)
Lemma main_region_printed (lat lon : float) :
  (main_region lat lon).1
  = match first_match rules lat lon with
    | Some n => [n]
    | None => []
    end.
Proof.
  unfold main_region, rules, first_match, contains, fgt, flt. simpl.
  repeat match goal with
         | |- context [if ?c then _ else _] => destruct c; simpl; try reflexivity
         end.
Qed.

(** [location] is set at line 122 and assigned nowhere else. *)
Lemma main_region_location (lat lon : float) :
  (main_region lat lon).2 = "unknown".
Proof. reflexivity. Qed.

(** C2, on the script.  For the point (1.30, 103.82) the chain prints
    "Singapore", the first box of the table that contains the point, but
    [location], the label line 141 reports, is still "unknown": the
    branches print the name and never assign it.  The same holds at
    (61.0, 25.0) with "Finland"; at (0.0, 0.0) no box matches, nothing is
    printed and the label is "unknown". *)
Theorem location_never_assigned :
  classify_table 1.30 103.82 = "Singapore"
  ∧ main_region 1.30 103.82 = (["Singapore"], "unknown")
  ∧ classify_table 61.0 25.0 = "Finland"
  ∧ main_region 61.0 25.0 = (["Finland"], "unknown")
  ∧ classify_table 0.0 0.0 = "unknown"
  ∧ main_region 0.0 0.0 = ([], "unknown")
  ∧ ∀ lat lon, (main_region lat lon).2 = "unknown".
Proof.
  split_and!; [vm_compute; reflexivity ..|apply main_region_location].
Qed.

(** A point in the boxes of both China and Japan: the first one in the
    order of the table is printed. *)
Example overlap_first_wins :
  contains (Rule "China" 18.24306 52.33333 75.98951 134.28917) 30 130 = true
  ∧ contains (Rule "Japan" 24.34478 45.40944 124.15717 145.575) 30 130 = true
  ∧ (main_region 30 130).1 = ["China"].
Proof. split_and!; vm_compute; reflexivity. Qed.

(** The comparisons are strict: a point on an edge of a box is outside. *)
Example edge_excluded : (main_region 59.83333 25.0).1 = [].
Proof. vm_compute. reflexivity. Qed.

(** * Further properties of the script *)

(** ** The record loop, in full *)

Lemma normalize_Some_inv (r : fixrec) (dt : datetime) (la lo : float) :
  normalize r = Some (dt, la, lo) →
  missing_fields r = false
  ∧ coord_deg (lat r) = Some la ∧ coord_deg (lon r) = Some lo
  ∧ ∃ y mo d h mi s,
      py_int (year r) = Some y ∧ py_int (month r) = Some mo
      ∧ py_int (day r) = Some d ∧ py_int (hour r) = Some h
      ∧ py_int (minute r) = Some mi ∧ py_int (second r) = Some s
      ∧ valid_calendar y mo d h mi s = true
      ∧ 0 ≤ usec_of (nano r) ≤ 999999
      ∧ dt = Datetime y mo d h mi s (usec_of (nano r)).
Proof.
  unfold normalize, build_datetime.
  destruct (missing_fields r); [done|].
  destruct (coord_deg (lat r)) as [la'|]; simpl; [|done].
  destruct (coord_deg (lon r)) as [lo'|]; simpl; [|done].
  destruct (py_int (year r)) as [y|]; simpl; [|done].
  destruct (py_int (month r)) as [mo|]; simpl; [|done].
  destruct (py_int (day r)) as [d|]; simpl; [|done].
  destruct (py_int (hour r)) as [h|]; simpl; [|done].
  destruct (py_int (minute r)) as [mi|]; simpl; [|done].
  destruct (py_int (second r)) as [s|]; simpl; [|done].
  destruct (datetime_new _ _ _ _ _ _ _) as [dt'|] eqn:Hdt; simpl; [|done].
  intros [= -> -> ->]. apply datetime_new_Some in Hdt as (Hv & Hus & ->).
  split_and!; try done. by exists y, mo, d, h, mi, s.
Qed.

(** X1.  A message yields the sample (dt, la, lo) exactly when it is a
    NAV-PVT message, none of its eight required fields is absent, its two
    coordinates convert to la and lo, its six calendar fields convert to
    ints that form a valid date and time, the microsecond value
    [int(nano) // 1000] (0 for an absent or unconvertible nano) lies in
    0..999999, and dt is the datetime of these seven numbers. *)
Theorem message_sample_iff (p : parsed) (dt : datetime) (la lo : float) :
  message_sample p = Some (dt, la, lo)
  ↔ ∃ r y mo d h mi s,
      fix_record p = Some r
      ∧ missing_fields r = false
      ∧ coord_deg (lat r) = Some la ∧ coord_deg (lon r) = Some lo
      ∧ py_int (year r) = Some y ∧ py_int (month r) = Some mo
      ∧ py_int (day r) = Some d ∧ py_int (hour r) = Some h
      ∧ py_int (minute r) = Some mi ∧ py_int (second r) = Some s
      ∧ valid_calendar y mo d h mi s = true
      ∧ 0 ≤ usec_of (nano r) ≤ 999999
      ∧ dt = Datetime y mo d h mi s (usec_of (nano r)).
Proof.
  split.
  - unfold message_sample. destruct (fix_record p) as [r|]; simpl; [|done].
    intros H. apply normalize_Some_inv in H
      as (Hm & Hla & Hlo & y & mo & d & h & mi & s & H).
    exists r, y, mo, d, h, mi, s. by split_and!; try apply H.
  - intros (r & y & mo & d & h & mi & s & Hr & Hm & Hla & Hlo & Hy & Hmo & Hd
            & Hh & Hmi & Hs & Hv & Hus & ->).
    rewrite (message_sample_fix p r Hr). by apply normalize_valid.
Qed.

(** X2.  Every sample the loop returns comes from a NAV-PVT message of
    the stream, and its datetime is a real one: the calendar fields are a
    valid date and time of day and the microsecond lies in 0..999999. *)
Theorem collect_records_sound (msgs : list parsed) (dt : datetime) (la lo : float) :
  (dt, la, lo) ∈ collect_records msgs →
  (∃ p, p ∈ msgs ∧ is_nav_pvt p ∧ message_sample p = Some (dt, la, lo))
  ∧ valid_calendar (dt_year dt) (dt_month dt) (dt_day dt)
                   (dt_hour dt) (dt_minute dt) (dt_second dt) = true
  ∧ 0 ≤ dt_microsecond dt ≤ 999999.
Proof.
  rewrite collect_records_omap, list_elem_of_omap. intros (p & Hp & Hs).
  destruct (fix_record p) as [r|] eqn:Hr;
    [|by rewrite (fix_record_None p) in Hs
        by (rewrite <- fix_record_is_Some, Hr; by intros [? ?])].
  pose proof Hs as Hs'. rewrite (message_sample_fix p r Hr) in Hs'.
  apply normalize_Some_inv in Hs'
    as (_ & _ & _ & y & mo & d & h & mi & s & _ & _ & _ & _ & _ & _
        & Hv & Hus & ->).
  split_and!; simpl; try done; try lia.
  exists p. split_and!; try done.
  apply fix_record_is_Some. by rewrite Hr.
Qed.

Lemma collect_records_sound_witness :
  nav_pvt_sample ∈ collect_records [nav_sat; nav_pvt]
  ∧ valid_calendar 2025 9 12 0 53 40 = true.
Proof.
  assert (nav_pvt_sample ∈ collect_records [nav_sat; nav_pvt]) as H.
  { vm_compute. apply list_elem_of_here. }
  split; [exact H|].
  exact (proj1 (proj2 (collect_records_sound [nav_sat; nav_pvt]
                         (Datetime 2025 9 12 0 53 40 299) 1.30 103.82 H))).
Defined.

Lemma message_sample_nav_pvt (p : parsed) :
  is_Some (message_sample p) → eq_str (getattr p "identity") "NAV-PVT" = true.
Proof.
  unfold message_sample, fix_record.
  destruct (eq_str _ _); [done|]. simpl. by intros [? ?].
Qed.

(** X3.  The loop returns at most one sample per NAV-PVT message: the
    number of samples is bounded by the number of messages whose identity
    is NAV-PVT, and so by the number of messages. *)
Theorem collect_records_length (msgs : list parsed) :
  (length (collect_records msgs)
   ≤ length (List.filter (λ p, eq_str (getattr p "identity") "NAV-PVT") msgs))%nat
  ∧ (length (collect_records msgs) ≤ length msgs)%nat.
Proof.
  rewrite collect_records_omap.
  assert (length (omap message_sample msgs)
          ≤ length (List.filter (λ p, eq_str (getattr p "identity") "NAV-PVT") msgs))%nat
    as H.
  { set (f := λ p : parsed, eq_str (getattr p "identity") "NAV-PVT").
    induction msgs as [|p msgs IH]; [done|].
    cbn [List.filter omap list_omap].
    destruct (message_sample p) as [s|] eqn:Hs.
    - assert (f p = true) as -> by (apply message_sample_nav_pvt; by rewrite Hs).
      simpl. lia.
    - destruct (f p); simpl; lia. }
  split; [done|].
  etrans; [exact H|]. apply List.filter_length_le.
Qed.

(** X4.  The loop keeps nothing from one message to the next but the list
    it appends to: the records of a stream are those of any prefix
    followed by those of the rest, and a further message changes none of
    the records gathered before it. *)
Theorem collect_records_concat (pre post : list parsed) (st : state) :
  run_loop st (pre ++ post) = run_loop (run_loop st pre) post
  ∧ collect_records (pre ++ post) = collect_records pre ++ collect_records post
  ∧ collect_records pre `prefix_of` collect_records (pre ++ post).
Proof.
  split_and!.
  - unfold run_loop. apply fold_left_app.
  - apply collect_records_app.
  - rewrite collect_records_app. by apply prefix_app_r.
Qed.

(** X5.  On a record that is otherwise acceptable, an int nano yields a
    sample exactly in the range 0..999,999,999; the microsecond is then
    [nano // 1000].  A negative nano and a nano of one second or more are
    both dropped. *)
Theorem nano_range (r : fixrec) (n : Z) (la lo : float) (y mo d h mi s : Z) :
  missing_fields r = false →
  coord_deg (lat r) = Some la → coord_deg (lon r) = Some lo →
  py_int (year r) = Some y → py_int (month r) = Some mo →
  py_int (day r) = Some d → py_int (hour r) = Some h →
  py_int (minute r) = Some mi → py_int (second r) = Some s →
  valid_calendar y mo d h mi s = true →
  nano r = VInt n →
  (0 ≤ n ≤ 999999999 →
   normalize r = Some (Datetime y mo d h mi s (n / 1000), la, lo))
  ∧ (n < 0 ∨ 1000000000 ≤ n → normalize r = None).
Proof.
  intros Hm Hla Hlo Hy Hmo Hd Hh Hmi Hs Hv Hn.
  assert (usec_of (nano r) = n / 1000) as Hus by (by rewrite Hn).
  split.
  - intros Hr. rewrite <- Hus.
    apply normalize_valid; try done. rewrite Hus.
    Z.to_euclidean_division_equations; lia.
  - intros Hr. destruct (normalize r) as [[[dt la'] lo']|] eqn:Hnorm; [|done].
    apply normalize_Some_inv in Hnorm as (_ & _ & _ & ? & ? & ? & ? & ? & ? & H).
    destruct H as (_ & _ & _ & _ & _ & _ & _ & Hus' & _).
    rewrite Hus in Hus'. Z.to_euclidean_division_equations; lia.
Qed.

Lemma nano_range_witness :
  message_sample (nav_pvt_nano (VInt 999999999))
  = Some (Datetime 2025 9 12 0 53 40 999999, 1.30%float, 103.82%float)
  ∧ message_sample (nav_pvt_nano (VInt 1000000000)) = None.
Proof.
  pose (r := FixRecord (VFloat 1.30) (VFloat 103.82) (VInt 2025) (VInt 9)
                       (VInt 12) (VInt 0) (VInt 53) (VInt 40)).
  split.
  - apply (proj1 (nano_range (r (VInt 999999999)) 999999999 1.30 103.82
                    2025 9 12 0 53 40 eq_refl eq_refl eq_refl eq_refl eq_refl
                    eq_refl eq_refl eq_refl eq_refl eq_refl eq_refl)).
    lia.
  - apply (proj2 (nano_range (r (VInt 1000000000)) 1000000000 1.30 103.82
                    2025 9 12 0 53 40 eq_refl eq_refl eq_refl eq_refl eq_refl
                    eq_refl eq_refl eq_refl eq_refl eq_refl eq_refl)).
    right. lia.
Defined.

(** X6.  The loop reads ten attributes of a message and no other: two
    messages that agree on identity, lat, lon, year, month, day, hour,
    min, second and nano give the same result, whatever else they carry
    (validity flags, fix type, accuracy estimates are never consulted). *)
Theorem only_fix_attributes_read (p q : parsed) :
  (∀ a, a ∈ fix_attributes → getattr p a = getattr q a) →
  fix_record p = fix_record q
  ∧ message_sample p = message_sample q
  ∧ ∀ st, loop_body st p = loop_body st q.
Proof.
  intros H.
  assert (fix_record p = fix_record q) as Hr.
  { unfold fix_record.
    rewrite !(H _) by (unfold fix_attributes; repeat constructor). done. }
  assert (message_sample p = message_sample q) as Hs
    by (unfold message_sample; by rewrite Hr).
  split_and!; [done|done|].
  intros st. by rewrite !loop_body_sample, Hs.
Qed.

Lemma only_fix_attributes_read_witness :
  message_sample (<["fixType" := VInt 3]> nav_pvt) = message_sample nav_pvt.
Proof.
  apply (only_fix_attributes_read (<["fixType" := VInt 3]> nav_pvt) nav_pvt).
  intros a Ha. unfold fix_attributes in Ha.
  repeat (apply elem_of_cons in Ha as [->|Ha]; [reflexivity|]).
  by apply elem_of_nil in Ha.
Defined.

(** ** The dict of a directory *)

Lemma fold_dir_step_dom (paths : list entry)
    (st : gmap string (list sample) * list string) :
  dom (fold_left dir_step paths st).1
  = dom st.1 ∪ list_to_set (name <$> paths).
Proof.
  revert st. induction paths as [|x paths IH]; intros st; simpl.
  - by rewrite (right_id_L ∅ (∪)).
  - rewrite IH, dir_step_spec. simpl. rewrite dom_insert_L.
    rewrite (comm_L (∪) {[name x]}). by rewrite <- (assoc_L (∪)).
Qed.

Lemma scan_dir_dom (paths : list entry) :
  dom (scan_dir paths).1 = list_to_set (name <$> paths).
Proof.
  unfold scan_dir. rewrite fold_dir_step_dom. simpl.
  by rewrite dom_empty_L, (left_id_L ∅ (∪)).
Qed.

Lemma scan_dir_is_Some (paths : list entry) (n : string) :
  is_Some ((scan_dir paths).1 !! n) ↔ n ∈ name <$> paths.
Proof. rewrite <- elem_of_dom, scan_dir_dom. apply elem_of_list_to_set. Qed.

(** X7.  The dict [collect_info_from_dir] returns has exactly the names
    of the directory's .ubz files as its keys: every file gets an entry,
    those whose reading raised too, and there is no other key. *)
Theorem scan_dir_keys (paths : list entry) :
  dom (scan_dir paths).1 = list_to_set (name <$> paths)
  ∧ ∀ n, is_Some ((scan_dir paths).1 !! n) ↔ n ∈ name <$> paths.
Proof. split; [apply scan_dir_dom|apply scan_dir_is_Some]. Qed.

Lemma scan_dir_lookup_distinct (paths : list entry) (x : entry) :
  NoDup (name <$> paths) →
  x ∈ paths →
  (scan_dir paths).1 !! name x = Some (file_records x).
Proof.
  intros Hnd Hx.
  apply list_elem_of_split in Hx as (pre & post & ->).
  rewrite fmap_app, fmap_cons in Hnd.
  apply NoDup_app in Hnd as (_ & _ & Hnd). apply NoDup_cons in Hnd as [Hfresh _].
  unfold scan_dir. rewrite fold_left_app. simpl.
  rewrite (fold_dir_step_fresh _ _ _ Hfresh), dir_step_spec. simpl.
  by rewrite lookup_insert_eq.
Qed.

(** X8.  With distinct file names (as in a directory), the dict holds
    under each file's name that file's own result: the empty list when an
    exception left the reading of the file, and otherwise the records of
    the messages the reader yielded on it, be the archive complete or
    not.  No file's entry depends on another file. *)
Theorem scan_dir_lookup (paths : list entry) (x : entry) :
  NoDup (name <$> paths) →
  x ∈ paths →
  (scan_dir paths).1 !! name x = Some (file_records x)
  ∧ (∀ e, raised (content x) = Some e → (scan_dir paths).1 !! name x = Some [])
  ∧ (raised (content x) = None →
       (scan_dir paths).1 !! name x
       = Some (collect_records (yielded (content x)))).
Proof.
  intros Hnd Hx.
  pose proof (scan_dir_lookup_distinct paths x Hnd Hx) as H.
  split_and!; [done| |].
  - intros e He. rewrite H. unfold file_records. by rewrite He.
  - intros He. rewrite H. unfold file_records. by rewrite He.
Qed.

Lemma file_output_warning (x : entry) : file_output x = option_list (file_warning x).
Proof. unfold file_output, file_warning. by destruct (raised (content x)). Qed.

Lemma concat_file_output (paths : list entry) :
  concat (file_output <$> paths) = omap file_warning paths.
Proof.
  induction paths as [|x paths IH]; [done|].
  rewrite fmap_cons. cbn [concat omap list_omap].
  rewrite IH, file_output_warning. by destruct (file_warning x).
Qed.

Lemma scan_dir_warnings (paths : list entry) :
  (scan_dir paths).2 = omap file_warning paths.
Proof.
  unfold scan_dir. rewrite fold_dir_step_output. simpl.
  apply concat_file_output.
Qed.

Lemma no_warning_iff (paths : list entry) :
  omap file_warning paths = [] ↔ ∀ x, x ∈ paths → raised (content x) = None.
Proof.
  induction paths as [|x paths IH]; simpl.
  - split; [|done]. intros _ x Hx. by apply elem_of_nil in Hx.
  - unfold file_warning at 1. destruct (raised (content x)) as [e|] eqn:Hc; simpl.
    + split; [done|]. intros H.
      pose proof (H x (list_elem_of_here _ _)) as Hd. congruence.
    + rewrite IH. split.
      * intros H y Hy. apply elem_of_cons in Hy as [->|Hy]; [done|by apply H].
      * intros H y Hy. apply H. by apply list_elem_of_further.
Qed.

(** X9.  [collect_info_from_dir] prints one warning for each file whose
    reading an exception leaves, in the order of the paths, and nothing
    else: there are as many lines as such files, and none at all exactly
    when no exception leaves the reading of any file. *)
Theorem scan_dir_output (paths : list entry) :
  (scan_dir paths).2 = omap file_warning paths
  ∧ length (scan_dir paths).2
    = length (List.filter (λ x, bool_decide (is_Some (file_warning x))) paths)
  ∧ ((scan_dir paths).2 = [] ↔ ∀ x, x ∈ paths → raised (content x) = None).
Proof.
  rewrite scan_dir_warnings. split_and!; [done| |apply no_warning_iff].
  induction paths as [|x paths IH]; [done|].
  cbn [omap list_omap List.filter].
  destruct (file_warning x); simpl; by rewrite IH.
Qed.

Lemma fold_dir_step_union (paths : list entry)
    (st : gmap string (list sample) * list string) :
  (fold_left dir_step paths st).1 = (scan_dir paths).1 ∪ st.1.
Proof.
  unfold scan_dir. revert st.
  induction paths as [|x paths IH]; intros st; simpl.
  - by rewrite (left_id_L ∅ (∪)).
  - rewrite IH, (IH (dir_step (∅, []) x)), !dir_step_spec. simpl.
    rewrite <- (assoc_L (∪)). f_equal.
    rewrite insert_empty. by rewrite <- insert_union_singleton_l.
Qed.

(** X10.  Scanning the paths of two lists one after the other gives the
    dict of the second list completed by the entries of the first that
    the second does not overwrite, and the output of the first followed
    by that of the second. *)
Theorem scan_dir_app (pre post : list entry) :
  (scan_dir (pre ++ post)).1
  = (scan_dir post).1 ∪ (scan_dir pre).1
  ∧ (scan_dir (pre ++ post)).2
    = (scan_dir pre).2 ++ (scan_dir post).2.
Proof.
  split.
  - unfold scan_dir at 1. rewrite fold_left_app.
    by rewrite fold_dir_step_union.
  - unfold scan_dir. rewrite !fold_dir_step_output. simpl.
    by rewrite fmap_app, concat_app.
Qed.

(** X11.  With distinct file names the dict does not depend on the order
    in which the paths are visited: any permutation of the paths gives the
    same mapping (the sorting of line 85 fixes the order of the warnings
    and of the dict's items, not its contents). *)
Theorem scan_dir_permutation (paths paths' : list entry) :
  paths ≡ₚ paths' →
  NoDup (name <$> paths) →
  (scan_dir paths).1 = (scan_dir paths').1.
Proof.
  intros Hperm Hnd.
  assert (NoDup (name <$> paths')) as Hnd' by (by rewrite <- Hperm).
  apply map_eq. intros n.
  destruct (decide (n ∈ name <$> paths)) as [Hn|Hn].
  - apply list_elem_of_fmap in Hn as (x & -> & Hx).
    rewrite (scan_dir_lookup_distinct paths x Hnd Hx).
    rewrite Hperm in Hx.
    by rewrite (scan_dir_lookup_distinct paths' x Hnd' Hx).
  - assert ((scan_dir paths).1 !! n = None) as ->.
    { apply eq_None_not_Some. by rewrite (scan_dir_is_Some paths n). }
    symmetry. apply eq_None_not_Some.
    rewrite (scan_dir_is_Some paths' n). by rewrite <- Hperm.
Qed.

Lemma scan_dir_lookup_witness :
  (scan_dir [bad_ubz; empty_ubz]).1 !! "a.ubz" = Some []
  ∧ (scan_dir [bad_ubz; empty_ubz]).1 !! "b.ubz" = Some [].
Proof.
  assert (NoDup (name <$> [bad_ubz; empty_ubz])) as Hnd.
  { simpl. apply NoDup_cons. split.
    - rewrite list_elem_of_singleton. discriminate.
    - apply NoDup_singleton. }
  split.
  - apply (proj1 (proj2 (scan_dir_lookup [bad_ubz; empty_ubz]
                           bad_ubz Hnd (list_elem_of_here _ _)))
             "Not a gzipped file" eq_refl).
  - apply (proj1 (scan_dir_lookup [bad_ubz; empty_ubz]
                    empty_ubz Hnd
                    (list_elem_of_further _ _ _ (list_elem_of_here _ _)))).
Defined.

Lemma scan_dir_permutation_witness :
  (scan_dir [bad_ubz; empty_ubz]).1
  = (scan_dir [empty_ubz; bad_ubz]).1.
Proof.
  apply scan_dir_permutation.
  - apply Permutation_swap.
  - simpl. apply NoDup_cons. split.
    + rewrite list_elem_of_singleton. discriminate.
    + apply NoDup_singleton.
Defined.

(** ** The dict in its order *)

Lemma dict_set_insert (k : string) (v : list sample) (d : list (string * list sample)) :
  (list_to_map (dict_set k v d) : gmap string (list sample))
  = <[k := v]> (list_to_map d).
Proof.
  induction d as [|[k' v'] d IH]; simpl; [done|].
  destruct (decide (k' = k)) as [->|Hne]; simpl.
  - by rewrite insert_insert_eq.
  - rewrite IH. by apply insert_insert_ne.
Qed.

Lemma dict_set_keys (k : string) (v : list sample) (d : list (string * list sample)) :
  (dict_set k v d).*1 = if decide (k ∈ d.*1) then d.*1 else d.*1 ++ [k].
Proof.
  induction d as [|[k' v'] d IH]; [done|].
  cbn [dict_set].
  destruct (decide (k' = k)) as [->|Hne]; rewrite !fmap_cons; cbn [fst].
  - rewrite decide_True; [done|]. apply list_elem_of_here.
  - rewrite IH. destruct (decide (k ∈ d.*1)) as [Hin|Hin].
    + rewrite decide_True; [done|]. by apply list_elem_of_further.
    + rewrite decide_False; [done|]. rewrite not_elem_of_cons. split; [congruence|done].
Qed.

Lemma dict_set_fresh (k : string) (v : list sample) (d : list (string * list sample)) :
  k ∉ d.*1 → dict_set k v d = d ++ [(k, v)].
Proof.
  induction d as [|[k' v'] d IH]; [done|].
  rewrite fmap_cons, not_elem_of_cons. cbn [fst dict_set]. intros [Hne Hin].
  rewrite decide_False by congruence. by rewrite IH.
Qed.

Lemma dict_set_NoDup (k : string) (v : list sample) (d : list (string * list sample)) :
  NoDup d.*1 → NoDup (dict_set k v d).*1.
Proof.
  intros Hnd. rewrite dict_set_keys. destruct (decide (k ∈ d.*1)); [done|].
  apply NoDup_app. split_and!; [done| |apply NoDup_singleton].
  intros y Hy. rewrite list_elem_of_singleton. by intros ->.
Qed.

Section MainFacts.

Variable str_float : float → string.
Variable str_datetime : datetime → string.

Lemma dir_step_items_spec (st : list (string * list sample) * list string) (x : entry) :
  dir_step_items st x
  = (dict_set (name x) (file_records x) st.1, st.2 ++ file_output x).
Proof.
  unfold dir_step_items, file_records, file_output.
  destruct (raised (content x)) as [e|] eqn:Hr.
  - by rewrite (collect_info_from_file_raised _ e Hr).
  - rewrite (collect_info_from_file_ended _ Hr). by rewrite !app_nil_r.
Qed.

Lemma fold_dir_step_items (paths : list entry)
    (st : list (string * list sample) * list string)
    (st' : gmap string (list sample) * list string) :
  list_to_map st.1 = st'.1 → st.2 = st'.2 → NoDup st.1.*1 →
  list_to_map (fold_left dir_step_items paths st).1
  = (fold_left dir_step paths st').1
  ∧ (fold_left dir_step_items paths st).2
    = (fold_left dir_step paths st').2
  ∧ NoDup (fold_left dir_step_items paths st).1.*1.
Proof.
  revert st st'. induction paths as [|x paths IH]; intros st st' H1 H2 H3; simpl.
  - done.
  - apply IH; rewrite dir_step_items_spec, ?dir_step_spec; simpl.
    + by rewrite dict_set_insert, H1.
    + by rewrite H2.
    + by apply dict_set_NoDup.
Qed.

Lemma scan_dir_items_distinct (paths : list entry) :
  NoDup (name <$> paths) →
  scan_dir_items paths
  = ((λ x, (name x, file_records x)) <$> paths, omap file_warning paths).
Proof.
  unfold scan_dir_items.
  induction paths as [|x paths IH] using rev_ind; intros Hnd; [done|].
  rewrite fmap_app in Hnd. apply NoDup_app in Hnd as (Hnd & Hfresh & _).
  rewrite fold_left_app, (IH Hnd). simpl.
  rewrite dir_step_items_spec. simpl. f_equal.
  - rewrite fmap_app. simpl. apply dict_set_fresh.
    rewrite <- list_fmap_compose. intros Hin.
    apply (Hfresh (name x)); [done|]. simpl. apply list_elem_of_here.
  - rewrite omap_app. simpl. f_equal. rewrite file_output_warning.
    by destruct (file_warning x).
Qed.

(** X12.  The dict [collect_info_from_dir] returns holds each name once;
    looked up by name it is the mapping of the per-file results, and the
    lines printed are the same whichever way the dict is read.  With
    distinct file names, iterating it visits the files in the order of
    the sorted paths, each with its own records. *)
Theorem scan_dir_items_order (paths : list entry) :
  list_to_map (scan_dir_items paths).1 = (scan_dir paths).1
  ∧ (scan_dir_items paths).2 = (scan_dir paths).2
  ∧ NoDup (scan_dir_items paths).1.*1
  ∧ (NoDup (name <$> paths) →
     (scan_dir_items paths).1
     = (λ x, (name x, file_records x)) <$> paths).
Proof.
  destruct (fold_dir_step_items paths ([], []) (∅, []))
    as (H1 & H2 & H3); try done; [apply NoDup_nil_2|].
  split_and!; try done.
  intros Hnd. by rewrite (scan_dir_items_distinct paths Hnd).
Qed.

Lemma report_items_paths (paths : list entry) :
  (∀ x, x ∈ paths → file_records x ≠ []) →
  report_items str_float str_datetime
    ((λ x, (name x, file_records x)) <$> paths)
  = (concat (omap (path_report str_float str_datetime) paths), false).
Proof.
  induction paths as [|x paths IH]; intros H; [done|].
  rewrite fmap_cons. cbn [report_items omap list_omap].
  unfold path_report at 1.
  destruct (report_file _ _ (name x) (file_records x)) as [ls|] eqn:Hr.
  - rewrite IH; [done|]. intros y Hy. apply H. by apply list_elem_of_further.
  - exfalso. apply (H x (list_elem_of_here _ _)).
    unfold report_file in Hr. by destruct (file_records x) as [|[[??]?]?].
Qed.

Lemma report_items_stop (pre post : list entry) (x : entry) :
  (∀ y, y ∈ pre → file_records y ≠ []) →
  file_records x = [] →
  report_items str_float str_datetime
    ((λ x, (name x, file_records x)) <$> pre ++ x :: post)
  = (concat (omap (path_report str_float str_datetime) pre), true).
Proof.
  intros Hpre Hx.
  induction pre as [|y pre IH].
  - simpl. by rewrite Hx.
  - rewrite <- app_comm_cons, fmap_cons. cbn [report_items omap list_omap].
    unfold path_report at 1.
    destruct (report_file _ _ (name y) (file_records y)) as [ls|] eqn:Hr.
    + rewrite IH; [done|]. intros z Hz. apply Hpre. by apply list_elem_of_further.
    + exfalso. apply (Hpre y (list_elem_of_here _ _)).
      unfold report_file in Hr. by destruct (file_records y) as [|[[??]?]?].
Qed.

End MainFacts.

(** ** The run of [main] *)

Section MainRun.

Variable str_float : float → string.
Variable str_datetime : datetime → string.
Variable path_str : string → string.

Lemma report_items_normal (paths : list entry) :
  (report_items str_float str_datetime
     ((λ x, (name x, file_records x)) <$> paths)).2 = false
  ↔ ∀ x, x ∈ paths → file_records x ≠ [].
Proof.
  induction paths as [|x paths IH].
  - split; [|done]. intros _ x Hx. by apply elem_of_nil in Hx.
  - rewrite fmap_cons. cbn [report_items]. unfold report_file.
    destruct (file_records x) as [|[[dt la] lo] recs] eqn:Hx.
    + split; [done|]. intros H. by destruct (H x (list_elem_of_here _ _)).
    + cbn [snd]. rewrite IH. split.
      * intros H y Hy. apply elem_of_cons in Hy as [->|Hy]; [by rewrite Hx|by apply H].
      * intros H y Hy. apply H. by apply list_elem_of_further.
Qed.

(** X13.  When the directory does not exist, [main] prints the one line
    "Error: Source directory not found: <dir>", with the directory as
    [Path] prints it, and returns normally; no file is read.  The
    directory is the default one when the argument is absent or empty. *)
Theorem main_missing_directory (args_src : option string)
    (fs : string → option (list entry)) :
  fs (source_dir path_str args_src) = None →
  main str_float str_datetime path_str args_src fs
  = (["Error: Source directory not found: " +:+ source_dir path_str args_src], None)
  ∧ (args_src = None ∨ args_src = Some "" →
     source_dir path_str args_src = path_str default_dir).
Proof.
  intros Hfs. split.
  - unfold main, collect_info_from_dir_items. by rewrite Hfs.
  - by intros [-> | ->].
Qed.

(** X14.  [main] stops with an IndexError at the first file, in path
    order, for which no record was collected (line 114 reads
    [records[0]]).  By then it has printed the warnings of all the files
    of the directory that raised and the reports of the files before that one;
    the files after it are not reported. *)
Theorem main_index_error (args_src : option string)
    (fs : string → option (list entry)) (pre post : list entry) (x : entry) :
  fs (source_dir path_str args_src) = Some (pre ++ x :: post) →
  NoDup (name <$> pre ++ x :: post) →
  (∀ y, y ∈ pre → file_records y ≠ []) →
  file_records x = [] →
  main str_float str_datetime path_str args_src fs
  = (omap file_warning (pre ++ x :: post)
     ++ concat (omap (path_report str_float str_datetime) pre),
     Some "IndexError: list index out of range").
Proof.
  intros Hfs Hnd Hpre Hx.
  unfold main, collect_info_from_dir_items. rewrite Hfs.
  rewrite (scan_dir_items_distinct _ Hnd). cbn [fst snd].
  by rewrite (report_items_stop str_float str_datetime pre post x Hpre Hx).
Qed.

(** X15.  On an existing directory with distinct file names, [main] ends
    normally exactly when every file yields at least one record; it then
    prints the reports of the files in path order and no warning.  One
    file whose reading an exception leaves is enough to end the run with
    the IndexError. *)
Theorem main_ends_normally_iff (args_src : option string)
    (fs : string → option (list entry)) (paths : list entry) :
  fs (source_dir path_str args_src) = Some paths →
  NoDup (name <$> paths) →
  ((main str_float str_datetime path_str args_src fs).2 = None
   ↔ ∀ x, x ∈ paths → file_records x ≠ [])
  ∧ ((main str_float str_datetime path_str args_src fs).2 = None →
     (main str_float str_datetime path_str args_src fs).1
     = concat (omap (path_report str_float str_datetime) paths))
  ∧ ((∃ x e, x ∈ paths ∧ raised (content x) = Some e) →
     (main str_float str_datetime path_str args_src fs).2
     = Some "IndexError: list index out of range").
Proof.
  intros Hfs Hnd.
  assert ((main str_float str_datetime path_str args_src fs).2 = None
          ↔ ∀ x, x ∈ paths → file_records x ≠ []) as Hiff.
  { unfold main, collect_info_from_dir_items. rewrite Hfs.
    rewrite (scan_dir_items_distinct _ Hnd). cbn [fst snd].
    rewrite <- report_items_normal.
    by destruct (report_items _ _ _).2. }
  split_and!; [done| |].
  - intros Hm. pose proof (proj1 Hiff Hm) as Hall. clear Hm.
    unfold main, collect_info_from_dir_items. rewrite Hfs.
    rewrite (scan_dir_items_distinct _ Hnd). cbn [fst snd].
    rewrite (report_items_paths str_float str_datetime paths Hall).
    cbn [fst].
    assert (omap file_warning paths = []) as ->; [|done].
    apply no_warning_iff. intros y Hy.
    specialize (Hall y Hy). unfold file_records in Hall.
    by destruct (raised (content y)).
  - intros (x & e & Hx & He).
    assert ((main str_float str_datetime path_str args_src fs).2 ≠ None) as Hne.
    { intros Hm. pose proof (proj1 Hiff Hm x Hx) as Hrec.
      unfold file_records in Hrec. by rewrite He in Hrec. }
    revert Hne. unfold main, collect_info_from_dir_items. rewrite Hfs.
    cbn [snd]. destruct (report_items _ _ _).2; [done|]. intros H. by destruct H.
Qed.

(** X16.  The report of a file looks at its first record only.  It has
    the datetime, latitude and longitude lines, then the line of the
    first region whose box contains the point, if there is one, then the
    summary line; the summary always gives the location as "unknown",
    with the same start time and duration for every file. *)
Theorem report_file_shape (fname : string) (dt : datetime) (lat lon : float)
    (rest : list sample) :
  report_file str_float str_datetime fname ((dt, lat, lon) :: rest)
  = report_file str_float str_datetime fname [(dt, lat, lon)]
  ∧ ∃ region_lines,
      report_file str_float str_datetime fname ((dt, lat, lon) :: rest)
      = Some (["datetime: " +:+ str_datetime dt;
               "latitude: " +:+ str_float lat;
               "longitude: " +:+ str_float lon]
              ++ region_lines
              ++ [summary_line str_float str_datetime fname "unknown"])
      ∧ region_lines
        = match first_match rules lat lon with Some n => [n] | None => [] end
      ∧ (length region_lines ≤ 1)%nat.
Proof.
  split; [done|].
  exists (main_region lat lon).1. split_and!.
  - done.
  - apply main_region_printed.
  - rewrite main_region_printed.
    destruct (first_match rules lat lon); cbn [length]; lia.
Qed.

End MainRun.

Lemma main_missing_directory_witness :
  main (λ _, "") (λ _, "") (λ s, s) (Some "logs") demo_fs
  = (["Error: Source directory not found: logs"], None).
Proof.
  exact (proj1 (main_missing_directory (λ _, "") (λ _, "") (λ s, s)
                  (Some "logs") demo_fs eq_refl)).
Defined.

Lemma demo_names_distinct : NoDup (name <$> [bad_ubz; empty_ubz]).
Proof.
  simpl. apply NoDup_cons. split.
  - rewrite list_elem_of_singleton. discriminate.
  - apply NoDup_singleton.
Defined.

Lemma main_index_error_witness :
  main (λ _, "") (λ _, "") (λ s, s) None demo_fs
  = (["Warning: failed to process logs/a.ubz: Not a gzipped file"],
     Some "IndexError: list index out of range").
Proof.
  refine (main_index_error (λ _, "") (λ _, "") (λ s, s) None demo_fs
            [] [empty_ubz] bad_ubz eq_refl demo_names_distinct _ eq_refl).
  intros y Hy. by apply elem_of_nil in Hy.
Defined.

Lemma main_ends_normally_iff_witness :
  (main (λ _, "") (λ _, "") (λ s, s) None demo_fs).2
  = Some "IndexError: list index out of range".
Proof.
  apply (proj2 (proj2 (main_ends_normally_iff (λ _, "") (λ _, "") (λ s, s)
                         None demo_fs [bad_ubz; empty_ubz] eq_refl
                         demo_names_distinct))).
  exists bad_ubz, "Not a gzipped file". split; [apply list_elem_of_here|done].
Defined.

(** ** The region chain *)

Module FloatOrder.

Lemma ltb_nan_l (x : float) : PrimFloat.ltb nan x = false.
Proof.
  rewrite ltb_spec. unfold SpecFloat.SFltb.
  replace (Prim2SF nan) with SpecFloat.S754_nan by (vm_compute; reflexivity).
  reflexivity.
Qed.

Lemma ltb_nan_r (x : float) : PrimFloat.ltb x nan = false.
Proof.
  rewrite ltb_spec. unfold SpecFloat.SFltb.
  replace (Prim2SF nan) with SpecFloat.S754_nan by (vm_compute; reflexivity).
  by destruct (Prim2SF x) as [| | |[] ? ?].
Qed.

Lemma ltb_irrefl (x : float) : PrimFloat.ltb x x = false.
Proof.
  rewrite ltb_spec. unfold SpecFloat.SFltb, SpecFloat.SFcompare.
  destruct (Prim2SF x) as [[]|[]| |[] m e]; try done.
  - by rewrite Z.compare_refl, Pos.compare_cont_refl.
  - by rewrite Z.compare_refl, Pos.compare_cont_refl.
Qed.

End FloatOrder.

Lemma first_match_Some (rs : list rule) (lat lon : float) (n : string) :
  first_match rs lat lon = Some n
  ↔ ∃ i r, rs !! i = Some r ∧ region r = n ∧ contains r lat lon = true
           ∧ ∀ j r', (j < i)%nat → rs !! j = Some r' → contains r' lat lon = false.
Proof.
  induction rs as [|r0 rs IH]; simpl.
  - split; [done|]. by intros (i & r & H & _).
  - destruct (contains r0 lat lon) eqn:Hc.
    + split.
      * intros [= <-]. exists 0%nat, r0. split_and!; try done. intros j r' Hj. lia.
      * intros (i & r & Hi & Hn & Hr & Hfirst).
        destruct i as [|i]; [by simplify_eq/=|].
        rewrite (Hfirst 0%nat r0) in Hc; [done|lia|done].
    + rewrite IH. split.
      * intros (i & r & Hi & Hn & Hr & Hfirst).
        exists (S i), r. split_and!; try done.
        intros [|j] r' Hj Hr'; [by simplify_eq/=|].
        apply (Hfirst j r'); [lia|done].
      * intros (i & r & Hi & Hn & Hr & Hfirst).
        destruct i as [|i]; [simplify_eq/=; congruence|].
        exists i, r. split_and!; try done.
        intros j r' Hj Hr'. apply (Hfirst (S j) r'); [lia|done].
Qed.

Lemma first_match_None (rs : list rule) (lat lon : float) :
  first_match rs lat lon = None ↔ ∀ r, r ∈ rs → contains r lat lon = false.
Proof.
  induction rs as [|r0 rs IH]; simpl.
  - split; [|done]. intros _ r Hr. by apply elem_of_nil in Hr.
  - destruct (contains r0 lat lon) eqn:Hc.
    + split; [done|]. intros H. rewrite (H r0) in Hc; [done|apply list_elem_of_here].
    + rewrite IH. split.
      * intros H r Hr. apply elem_of_cons in Hr as [->|Hr]; [done|by apply H].
      * intros H r Hr. apply H. by apply list_elem_of_further.
Qed.

Lemma main_region_none (lat lon : float) :
  (main_region lat lon).1 = [] ↔ ∀ r, r ∈ rules → contains r lat lon = false.
Proof.
  rewrite main_region_printed, <- first_match_None.
  by destruct (first_match rules lat lon).
Qed.

Lemma main_region_some (lat lon : float) (n : string) :
  (main_region lat lon).1 = [n]
  ↔ ∃ i r, rules !! i = Some r ∧ region r = n ∧ contains r lat lon = true
           ∧ ∀ j r', (j < i)%nat → rules !! j = Some r' →
                     contains r' lat lon = false.
Proof.
  rewrite main_region_printed, <- first_match_Some.
  destruct (first_match rules lat lon); split; congruence.
Qed.

(** X17.  The chain of lines 123-134 prints the name of a region exactly
    when that region's box is the first, in the order Finland,
    Switzerland, China, Japan, Singapore, United States, that strictly
    contains the point; it prints nothing exactly when no box contains the
    point, and never more than one line. *)
Theorem region_chain_first_match (lat lon : float) :
  (∀ n, (main_region lat lon).1 = [n]
        ↔ ∃ i r, rules !! i = Some r ∧ region r = n
                 ∧ contains r lat lon = true
                 ∧ ∀ j r', (j < i)%nat → rules !! j = Some r' →
                           contains r' lat lon = false)
  ∧ ((main_region lat lon).1 = []
     ↔ ∀ r, r ∈ rules → contains r lat lon = false)
  ∧ (length (main_region lat lon).1 ≤ 1)%nat.
Proof.
  split_and!.
  - apply main_region_some.
  - apply main_region_none.
  - rewrite main_region_printed.
    destruct (first_match rules lat lon); cbn [length]; lia.
Qed.

Lemma contains_nan (r : rule) (x : float) :
  contains r nan x = false ∧ contains r x nan = false.
Proof.
  unfold contains, flt. split.
  - by rewrite FloatOrder.ltb_nan_r.
  - by rewrite FloatOrder.ltb_nan_r, andb_false_r.
Qed.

(** X18.  A float coordinate is never rejected for its value: a NaN
    latitude or longitude is collected as it is, and the chain then
    prints no region for the point, since every comparison with a NaN is
    false. *)
Theorem nan_matches_no_region (x : float) :
  coord_deg (VFloat nan) = Some nan
  ∧ (main_region nan x).1 = []
  ∧ (main_region x nan).1 = [].
Proof.
  split; [done|].
  split; apply main_region_none; intros r _; apply contains_nan.
Qed.

Lemma contains_edge (r : rule) (lat lon : float) :
  lat = min_lat r ∨ lat = max_lat r ∨ lon = min_lon r ∨ lon = max_lon r →
  contains r lat lon = false.
Proof.
  unfold contains, flt. intros [-> | [-> | [-> | ->]]].
  - by rewrite FloatOrder.ltb_irrefl.
  - by rewrite FloatOrder.ltb_irrefl, andb_false_r.
  - by rewrite FloatOrder.ltb_irrefl, andb_false_r.
  - by rewrite FloatOrder.ltb_irrefl, andb_false_r.
Qed.

Lemma rules_region_inj (r r' : rule) :
  r ∈ rules → r' ∈ rules → region r = region r' → r = r'.
Proof.
  unfold rules. intros Hr Hr'.
  repeat (apply elem_of_cons in Hr as [->|Hr]);
    try (by apply elem_of_nil in Hr);
    repeat (apply elem_of_cons in Hr' as [->|Hr']);
    try (by apply elem_of_nil in Hr'); simpl; intros H; done || discriminate H.
Qed.

(** X19.  The boxes are open: a point whose latitude or longitude lies
    exactly on an edge of a region's box is never reported as that
    region. *)
Theorem edge_is_outside (r : rule) (lat lon : float) :
  r ∈ rules →
  lat = min_lat r ∨ lat = max_lat r ∨ lon = min_lon r ∨ lon = max_lon r →
  (main_region lat lon).1 ≠ [region r].
Proof.
  intros Hr Hedge Hp.
  apply main_region_some in Hp as (i & r' & Hi & Hn & Hc & _).
  assert (r' = r) as ->.
  { apply rules_region_inj; [|done|done].
    apply list_elem_of_lookup. by exists i. }
  by rewrite (contains_edge r lat lon Hedge) in Hc.
Qed.

Lemma edge_is_outside_witness :
  Rule "Finland" 59.83333 68.90596 21.37596 30.93276 ∈ rules
  ∧ (main_region 59.83333 25.0).1 ≠ ["Finland"].
Proof.
  assert (Rule "Finland" 59.83333 68.90596 21.37596 30.93276 ∈ rules) as H
    by apply list_elem_of_here.
  split; [exact H|].
  exact (edge_is_outside (Rule "Finland" 59.83333 68.90596 21.37596 30.93276)
           59.83333 25.0 H (or_introl eq_refl)).
Defined.
